(** * scripts/validate_task_docs.py: the documentation validator

    A shallow embedding of [DocumentationValidator] and [main].

    - Python [str] values are lists of Unicode code points.
    - The [re] patterns of [analyze_code_changes] are regular expressions
      over code points, searched with Brzozowski derivatives; the search is
      proved equivalent to the declarative meaning of the patterns.
    - The operating system (file tests, modification times, the wall clock,
      the working directory) and the iteration order of a Python [set] are
      fields of a [World]; the Unicode character database used by [re] on
      code points above 127 is a type class.
    - Printing, clock readings and exceptions are threaded through a small
      state-and-exception monad.

    Assumed of the platform: paths are POSIX paths ([os.path] is
    [posixpath]); [print], [json.dumps] and [os.getcwd] return. A line of
    output is identified by the [print] call that writes it and the values
    it formats. [generate_validation_report] takes the formatting of the
    time of the run ([strftime]) as a parameter. *)

From Stdlib Require Import NArith ZArith List String Ascii Bool Lia Permutation.
Import ListNotations.

Set Implicit Arguments.

(** ** Python strings *)

Definition pystr := list N.

Definition pystr_eq_dec : forall a b : pystr, {a = b} + {a <> b} :=
  list_eq_dec N.eq_dec.

(** Source literals are written as UTF-8 byte strings and decoded to code
    points (one to three bytes per code point cover the whole script). *)
Fixpoint utf8 (s : string) : pystr :=
  match s with
  | EmptyString => []
  | String a s1 =>
      let b := N_of_ascii a in
      if (b <? 128)%N then b :: utf8 s1
      else if (b <? 224)%N then
        match s1 with
        | String a2 s2 => ((b - 192) * 64 + (N_of_ascii a2 - 128))%N :: utf8 s2
        | EmptyString => []
        end
      else
        match s1 with
        | String a2 (String a3 s3) =>
            ((b - 224) * 4096 + (N_of_ascii a2 - 128) * 64
             + (N_of_ascii a3 - 128))%N :: utf8 s3
        | _ => []
        end
  end.

(** [str.startswith] and [str.endswith]. *)
Fixpoint startswith (s p : pystr) : bool :=
  match p, s with
  | [], _ => true
  | _ :: _, [] => false
  | a :: p', b :: s' => (a =? b)%N && startswith s' p'
  end.

Definition endswith (s p : pystr) : bool := startswith (rev s) (rev p).

(** ** The part of [re] the script uses *)

(** The Unicode character database, consulted only for code points that
    are not ASCII: [\s], [\w], and the letters a code point equals under
    [re.IGNORECASE]. *)
Class Unicode := {
  uni_isspace : N -> bool;
  uni_isword : N -> bool;
  uni_ignorecase : N -> N -> bool
}.

Module Re.

Inductive regex : Type :=
| Void
| Eps
| Lit (c : N)
| Space
| Word
| Seq (r1 r2 : regex)
| Alt (r1 r2 : regex)
| Star (r : regex).

Definition Plus (r : regex) : regex := Seq r (Star r).

(** A literal string, one [Lit] per character. *)
Fixpoint lit (s : pystr) : regex :=
  match s with
  | [] => Eps
  | c :: s' => Seq (Lit c) (lit s')
  end.

Definition is_upper (x : N) : bool := ((65 <=? x) && (x <=? 90))%N.
Definition is_lower (x : N) : bool := ((97 <=? x) && (x <=? 122))%N.
Definition is_digit (x : N) : bool := ((48 <=? x) && (x <=? 57))%N.
Definition ascii_lower (x : N) : N := if is_upper x then (x + 32)%N else x.

Section Classes.
Context {U : Unicode}.

(** [\s] on a [str] pattern: tab, LF, VT, FF, CR, the four separators
    0x1c..0x1f and the space, plus the Unicode white space. *)
Definition isspace (x : N) : bool :=
  if (x <? 128)%N
  then ((9 <=? x) && (x <=? 13) || (28 <=? x) && (x <=? 32))%N
  else uni_isspace x.

(** [\w] on a [str] pattern: alphanumerics and the underscore. *)
Definition isword (x : N) : bool :=
  if (x <? 128)%N
  then is_upper x || is_lower x || is_digit x || (x =? 95)%N
  else uni_isword x.

(** A pattern character [c] against a text character [x] under
    [re.IGNORECASE]. The patterns hold ASCII only; an uncased [c] is
    compared exactly. *)
Definition lit_matches (c x : N) : bool :=
  if (x <? 128)%N then (ascii_lower x =? ascii_lower c)%N
  else (is_upper c || is_lower c) && uni_ignorecase (ascii_lower c) x.

Fixpoint nullable (r : regex) : bool :=
  match r with
  | Void | Lit _ | Space | Word => false
  | Eps | Star _ => true
  | Seq r1 r2 => nullable r1 && nullable r2
  | Alt r1 r2 => nullable r1 || nullable r2
  end.

(** Smart constructors keep derivatives small. *)
Definition seq (r1 r2 : regex) : regex :=
  match r1, r2 with
  | Void, _ => Void
  | _, Void => Void
  | Eps, _ => r2
  | _, _ => Seq r1 r2
  end.

Definition alt (r1 r2 : regex) : regex :=
  match r1, r2 with
  | Void, _ => r2
  | _, Void => r1
  | _, _ => Alt r1 r2
  end.

Fixpoint deriv (x : N) (r : regex) : regex :=
  match r with
  | Void | Eps => Void
  | Lit c => if lit_matches c x then Eps else Void
  | Space => if isspace x then Eps else Void
  | Word => if isword x then Eps else Void
  | Seq r1 r2 =>
      if nullable r1
      then alt (seq (deriv x r1) r2) (deriv x r2)
      else seq (deriv x r1) r2
  | Alt r1 r2 => alt (deriv x r1) (deriv x r2)
  | Star r1 => seq (deriv x r1) (Star r1)
  end.

(** Does the pattern match at the start of the text (some prefix)? *)
Fixpoint match_here (r : regex) (s : pystr) : bool :=
  nullable r ||
  match s with
  | [] => false
  | x :: s' => match_here (deriv x r) s'
  end.

(** [re.search(pattern, text, re.IGNORECASE)], as the truth value of the
    match object: the pattern matches at some position. *)
Fixpoint search (r : regex) (s : pystr) : bool :=
  match_here r s ||
  match s with
  | [] => false
  | _ :: s' => search r s'
  end.

(** The meaning of a pattern: the strings it matches in full. *)
Inductive matches : regex -> pystr -> Prop :=
| MEps : matches Eps []
| MLit c x : lit_matches c x = true -> matches (Lit c) [x]
| MSpace x : isspace x = true -> matches Space [x]
| MWord x : isword x = true -> matches Word [x]
| MSeq r1 r2 s1 s2 :
    matches r1 s1 -> matches r2 s2 -> matches (Seq r1 r2) (s1 ++ s2)
| MAltL r1 r2 s : matches r1 s -> matches (Alt r1 r2) s
| MAltR r1 r2 s : matches r2 s -> matches (Alt r1 r2) s
| MStar0 r : matches (Star r) []
| MStarS r s1 s2 :
    matches r s1 -> matches (Star r) s2 -> matches (Star r) (s1 ++ s2).

End Classes.
End Re.

(** ** The patterns of [analyze_code_changes] *)

Module Patterns.
Import Re.

Definition alts (rs : list regex) : regex := fold_right Alt Void rs.
Definition seqs (rs : list regex) : regex := fold_right Seq Eps rs.
Definition kw (s : string) : regex := lit (utf8 s).

(** [type\s+\w+\s+struct|struct\s+\w+\s*{] *)
Definition struct_decl : regex :=
  Alt (seqs [kw "type"; Plus Space; Plus Word; Plus Space; kw "struct"])
      (seqs [kw "struct"; Plus Space; Plus Word; Star Space; kw "{"]).

(** [json:|yaml:] *)
Definition field_tag : regex := Alt (kw "json:") (kw "yaml:").

(** [func\s+\w+\s*\(|function\s+\w+\s*\(] *)
Definition func_decl : regex :=
  Alt (seqs [kw "func"; Plus Space; Plus Word; Star Space; kw "("])
      (seqs [kw "function"; Plus Space; Plus Word; Star Space; kw "("]).

(** [ErrCode|Error|error|const\s+\w+\s*=] *)
Definition error_code : regex :=
  alts [kw "ErrCode"; kw "Error"; kw "error";
        seqs [kw "const"; Plus Space; Plus Word; Star Space; kw "="]].

(** [config|Config|ENV|environment|loadConfig|NewConfig] *)
Definition config : regex :=
  alts [kw "config"; kw "Config"; kw "ENV"; kw "environment";
        kw "loadConfig"; kw "NewConfig"].

(** [endpoint|route|handler|API] *)
Definition api : regex :=
  alts [kw "endpoint"; kw "route"; kw "handler"; kw "API"].

End Patterns.

(** ** [analyze_code_changes] *)

Record Changes := {
  struct_fields : bool;
  function_signatures : bool;
  error_codes : bool;
  config_changes : bool;
  api_endpoints : bool;
  general_changes : bool
}.

(** Item assignment [changes[key] = v], one setter per key. *)
Definition set_struct_fields (v : bool) (c : Changes) : Changes :=
  {| struct_fields := v;
     function_signatures := function_signatures c;
     error_codes := error_codes c;
     config_changes := config_changes c;
     api_endpoints := api_endpoints c;
     general_changes := general_changes c |}.

Definition set_function_signatures (v : bool) (c : Changes) : Changes :=
  {| struct_fields := struct_fields c;
     function_signatures := v;
     error_codes := error_codes c;
     config_changes := config_changes c;
     api_endpoints := api_endpoints c;
     general_changes := general_changes c |}.

Definition set_error_codes (v : bool) (c : Changes) : Changes :=
  {| struct_fields := struct_fields c;
     function_signatures := function_signatures c;
     error_codes := v;
     config_changes := config_changes c;
     api_endpoints := api_endpoints c;
     general_changes := general_changes c |}.

Definition set_config_changes (v : bool) (c : Changes) : Changes :=
  {| struct_fields := struct_fields c;
     function_signatures := function_signatures c;
     error_codes := error_codes c;
     config_changes := v;
     api_endpoints := api_endpoints c;
     general_changes := general_changes c |}.

Definition set_api_endpoints (v : bool) (c : Changes) : Changes :=
  {| struct_fields := struct_fields c;
     function_signatures := function_signatures c;
     error_codes := error_codes c;
     config_changes := config_changes c;
     api_endpoints := v;
     general_changes := general_changes c |}.

Definition set_general_changes (v : bool) (c : Changes) : Changes :=
  {| struct_fields := struct_fields c;
     function_signatures := function_signatures c;
     error_codes := error_codes c;
     config_changes := config_changes c;
     api_endpoints := api_endpoints c;
     general_changes := v |}.

(** [changes.values()] *)
Definition values (c : Changes) : list bool :=
  [struct_fields c; function_signatures c; error_codes c;
   config_changes c; api_endpoints c; general_changes c].

(** Python's [any]. *)
Definition any (l : list bool) : bool := existsb (fun b => b) l.

(** [if cond: changes = f(changes)] *)
Definition when (cond : bool) (f : Changes -> Changes) (c : Changes)
  : Changes :=
  if cond then f c else c.

Section Classifier.
Context {U : Unicode}.

Definition analyze_code_changes (task_details : pystr) : Changes :=
  let changes := {| struct_fields := false; function_signatures := false;
                    error_codes := false; config_changes := false;
                    api_endpoints := false; general_changes := false |} in
  let changes := when (Re.search Patterns.struct_decl task_details)
                      (set_struct_fields true) changes in
  let changes := when (Re.search Patterns.field_tag task_details)
                      (set_struct_fields true) changes in
  let changes := when (Re.search Patterns.func_decl task_details)
                      (set_function_signatures true) changes in
  let changes := when (Re.search Patterns.error_code task_details)
                      (set_error_codes true) changes in
  let changes := when (Re.search Patterns.config task_details)
                      (set_config_changes true) changes in
  let changes := when (Re.search Patterns.api task_details)
                      (set_api_endpoints true) changes in
  let changes := when (any (values changes))
                      (set_general_changes true) changes in
  changes.

End Classifier.

(** ** [determine_required_updates] *)

Module Table.
Definition for_struct_fields : list pystr :=
  [utf8 "docs/schemas/";
   utf8 "README.md (설정 섹션)";
   utf8 "docs/api-documentation.md (데이터 구조 섹션)"].

Definition for_function_signatures : list pystr :=
  [utf8 "docs/api-documentation.md (함수 섹션)";
   utf8 "README.md (API 섹션)"].

Definition for_error_codes : list pystr :=
  [utf8 "docs/api-documentation.md (에러 섹션)";
   utf8 "docs/error-codes.md"].

Definition for_config_changes : list pystr :=
  [utf8 "README.md (환경변수 섹션)";
   utf8 "docs/configuration.md";
   utf8 "deploy/helm/gpu-webhook/values.yaml"].

Definition for_api_endpoints : list pystr :=
  [utf8 "docs/api-documentation.md (엔드포인트 섹션)";
   utf8 "docs/gpu-api-analysis.md"].
End Table.

(** [if cond: required_updates.extend(items)] *)
Definition extend_if (cond : bool) (items required_updates : list pystr)
  : list pystr :=
  if cond then required_updates ++ items else required_updates.

(** The list before [list(set(...))]. *)
Definition collected_updates (changes : Changes) : list pystr :=
  let required_updates := [] in
  let required_updates :=
    extend_if (struct_fields changes) Table.for_struct_fields
              required_updates in
  let required_updates :=
    extend_if (function_signatures changes) Table.for_function_signatures
              required_updates in
  let required_updates :=
    extend_if (error_codes changes) Table.for_error_codes
              required_updates in
  let required_updates :=
    extend_if (config_changes changes) Table.for_config_changes
              required_updates in
  let required_updates :=
    extend_if (api_endpoints changes) Table.for_api_endpoints
              required_updates in
  required_updates.

(** ** The world outside the script *)

(** A POSIX time stamp ([st_mtime]); the script only hands it to
    [datetime.fromtimestamp]. *)
Definition timestamp := Z.

(** A naive local [datetime], counted in microseconds. *)
Definition datetime := Z.

Record World := {
  (** the order in which [list] enumerates a [set] holding these elements
      (it depends on the string hashes of the process) *)
  set_order : list pystr -> list pystr;
  (** [os.path.isfile]: false for a directory, a missing path and any
      failed [stat] *)
  isfile : pystr -> bool;
  (** [os.path.getmtime]: the time stamp, or the message of the [OSError] *)
  getmtime : pystr -> pystr + timestamp;
  (** [datetime.fromtimestamp]: the local time, or the message of the
      error raised for a time stamp out of range *)
  fromtimestamp : timestamp -> pystr + datetime;
  (** the n-th reading of [datetime.now()] in this run *)
  clock : nat -> datetime;
  (** [os.getcwd()] *)
  getcwd : pystr
}.

(** [list(set(l))]: the distinct elements, in the order of the process. *)
Definition list_set (w : World) (l : list pystr) : list pystr :=
  set_order w (nodup pystr_eq_dec l).

(** What the script relies on: enumerating a set yields its elements. *)
Definition set_order_ok (w : World) : Prop :=
  forall l, NoDup l -> Permutation (set_order w l) l.

Definition determine_required_updates (w : World) (changes : Changes)
  : list pystr :=
  list_set w (collected_updates changes).

(** [posixpath.join] of two components. *)
Definition os_path_join (a b : pystr) : pystr :=
  if startswith b (utf8 "/") then b
  else if match a with [] => true | _ => endswith a (utf8 "/") end
       then a ++ b
       else a ++ utf8 "/" ++ b.

(** [timedelta.days] of a difference of [d] microseconds (floor). *)
Definition day_us : Z := 86400000000.
Definition days (d : Z) : Z := d / day_us.

(** ** Results *)

Inductive Status := pending | completed | outdated | failed.

Definition Status_eqb (a b : Status) : bool :=
  match a, b with
  | pending, pending | completed, completed
  | outdated, outdated | failed, failed => true
  | _, _ => false
  end.

Record SyncStatus := {
  status : Status;
  last_updated : option datetime;
  missing_files : list pystr;
  outdated_files : list pystr;
  valid_files : list pystr
}.

Definition set_status (v : Status) (s : SyncStatus) : SyncStatus :=
  {| status := v; last_updated := last_updated s;
     missing_files := missing_files s;
     outdated_files := outdated_files s;
     valid_files := valid_files s |}.

Definition set_last_updated (v : option datetime) (s : SyncStatus)
  : SyncStatus :=
  {| status := status s; last_updated := v;
     missing_files := missing_files s;
     outdated_files := outdated_files s;
     valid_files := valid_files s |}.

(** [sync_status[bucket].append(update)] *)
Definition append_missing (update : pystr) (s : SyncStatus) : SyncStatus :=
  {| status := status s; last_updated := last_updated s;
     missing_files := missing_files s ++ [update];
     outdated_files := outdated_files s;
     valid_files := valid_files s |}.

Definition append_outdated (update : pystr) (s : SyncStatus) : SyncStatus :=
  {| status := status s; last_updated := last_updated s;
     missing_files := missing_files s;
     outdated_files := outdated_files s ++ [update];
     valid_files := valid_files s |}.

Definition append_valid (update : pystr) (s : SyncStatus) : SyncStatus :=
  {| status := status s; last_updated := last_updated s;
     missing_files := missing_files s;
     outdated_files := outdated_files s;
     valid_files := valid_files s ++ [update] |}.

Record Result := {
  task_id : pystr;
  changes_detected : Changes;
  required_updates : list pystr;
  sync_status : SyncStatus;
  validation_passed : bool;
  timestamp_iso : datetime
}.

(** ** Effects: standard output, the clock, exceptions *)

(** The lines the script prints, by the [print] call that writes them. *)
Inductive line :=
| PrintStart (task_id : pystr)
| PrintChanges (changes : Changes)
| PrintRequired (required_updates : list pystr)
| PrintSyncStatus (s : Status)
| PrintJson (result : Result)
| PrintPassed
| PrintFailed
| PrintUsage
| PrintError (e : pystr).

(** [SystemExit] is not an [Exception]: [except Exception] lets it pass. *)
Inductive exc :=
| SystemExit (code : Z)
| Exception (msg : pystr).

Record State := {
  reads : nat;            (** clock readings made so far *)
  stdout : list line      (** lines printed so far *)
}.

Definition M (A : Type) : Type := State -> (exc + A) * State.

Definition ret {A} (a : A) : M A := fun st => (inr a, st).

Definition bind {A B} (m : M A) (k : A -> M B) : M B :=
  fun st =>
    match m st with
    | (inr a, st') => k a st'
    | (inl e, st') => (inl e, st')
    end.

Declare Scope py_scope.
Delimit Scope py_scope with py.
Notation "x <- m ;; k" := (bind m (fun x => k))
  (at level 61, m at next level, right associativity) : py_scope.
Notation "m ;; k" := (bind m (fun _ => k))
  (at level 61, right associativity) : py_scope.
Local Open Scope py_scope.

Definition raise {A} (e : exc) : M A := fun st => (inl e, st).

(** A library call that returns or raises an [Exception]. *)
Definition call {A} (r : pystr + A) : M A :=
  match r with
  | inr a => ret a
  | inl msg => raise (Exception msg)
  end.

Definition print (l : line) : M unit :=
  fun st => (inr tt, {| reads := reads st; stdout := stdout st ++ [l] |}).

Definition datetime_now (w : World) : M datetime :=
  fun st => (inr (clock w (reads st)),
             {| reads := S (reads st); stdout := stdout st |}).

Definition sys_exit {A} (code : Z) : M A := raise (SystemExit code).

(** [try: body  except Exception as e: handler(e)] *)
Definition try_except {A} (body : M A) (handler : pystr -> M A) : M A :=
  fun st =>
    match body st with
    | (inl (Exception msg), st') => handler msg st'
    | r => r
    end.

(** [for x in xs: acc = body(x, acc)] *)
Fixpoint for_each {A B} (xs : list A) (body : A -> B -> M B) (acc : B)
  : M B :=
  match xs with
  | [] => ret acc
  | x :: xs' => acc' <- body x acc ;; for_each xs' body acc'
  end.

(** ** [DocumentationValidator] *)

(** [validation_results] is set to an empty dict by [__init__] and never
    read or written again; it is left out. *)
Record DocumentationValidator := {
  project_root : pystr
}.

Section Validator.
Context {U : Unicode}.
Variable w : World.
Variable self : DocumentationValidator.

(** The body of the loop of [check_documentation_sync]. *)
Definition check_one (update : pystr) (sync_status : SyncStatus)
  : M SyncStatus :=
  let file_path := os_path_join (project_root self) update in
  if isfile w file_path then
    mtime <- call (getmtime w file_path) ;;
    last_modified <- call (fromtimestamp w mtime) ;;
    now <- datetime_now w ;;
    if (days (now - last_modified) <? 1)%Z then
      let sync_status := append_valid update sync_status in
      if match last_updated sync_status with
         | None => true
         | Some lu => (lu <? last_modified)%Z
         end
      then ret (set_last_updated (Some last_modified) sync_status)
      else ret sync_status
    else ret (append_outdated update sync_status)
  else ret (append_missing update sync_status).

(** Python's truth value of a list. *)
Definition nonempty {A} (l : list A) : bool :=
  match l with [] => false | _ :: _ => true end.

(** The status decided after the loop. *)
Definition overall_status (sync_status : SyncStatus) : Status :=
  if nonempty (missing_files sync_status) then failed
  else if nonempty (outdated_files sync_status) then outdated
  else if nonempty (valid_files sync_status) then completed
  else pending.

Definition check_documentation_sync (required_updates : list pystr)
  : M SyncStatus :=
  let sync_status := {| status := pending; last_updated := None;
                        missing_files := []; outdated_files := [];
                        valid_files := [] |} in
  sync_status <- for_each required_updates check_one sync_status ;;
  ret (set_status (overall_status sync_status) sync_status).

Definition validate_task_documentation (task_id task_details : pystr)
  : M Result :=
  print (PrintStart task_id) ;;
  let changes := analyze_code_changes task_details in
  print (PrintChanges changes) ;;
  let required_updates := determine_required_updates w changes in
  print (PrintRequired required_updates) ;;
  sync_status <- check_documentation_sync required_updates ;;
  print (PrintSyncStatus (status sync_status)) ;;
  now <- datetime_now w ;;
  ret {| task_id := task_id;
         changes_detected := changes;
         required_updates := required_updates;
         sync_status := sync_status;
         validation_passed := Status_eqb (status sync_status) completed;
         timestamp_iso := now |}.

End Validator.

(** ** [main] *)

Section Main.
Context {U : Unicode}.
Variable w : World.

(** [sys.argv[i]], for an index in range. *)
Definition argv_at (argv : list pystr) (i : nat) : pystr := nth i argv [].

Definition main (argv : list pystr) : M unit :=
  (if (List.length argv <? 3)%nat
   then print PrintUsage ;; sys_exit 1
   else ret tt) ;;
  let task_id := argv_at argv 1 in
  let task_details := argv_at argv 2 in
  let project_root :=
    if (3 <? List.length argv)%nat then argv_at argv 3 else getcwd w in
  let validator := {| project_root := project_root |} in
  try_except
    (result <- validate_task_documentation w validator task_id task_details ;;
     print (PrintJson result) ;;
     if validation_passed result
     then print PrintPassed ;; sys_exit 0
     else print PrintFailed ;; sys_exit 1)
    (fun e => print (PrintError e) ;; sys_exit 1).

(** The process: [main()] from a fresh state. An exception that reaches
    the top ends the process with code 1, a normal return with code 0. *)
Definition initial : State := {| reads := 0; stdout := [] |}.

Definition exit_code_of (r : exc + unit) : Z :=
  match r with
  | inr _ => 0
  | inl (SystemExit code) => code
  | inl (Exception _) => 1
  end.

Definition run (argv : list pystr) : list line * Z :=
  let (r, st) := main argv initial in (stdout st, exit_code_of r).

End Main.

(** ** Vocabulary of the properties *)

(** The flag set with nothing detected. *)
Definition no_changes : Changes :=
  {| struct_fields := false; function_signatures := false;
     error_codes := false; config_changes := false;
     api_endpoints := false; general_changes := false |}.

(** The six patterns tested by [analyze_code_changes], in source order. *)
Definition triggers : list Re.regex :=
  [Patterns.struct_decl; Patterns.field_tag; Patterns.func_decl;
   Patterns.error_code; Patterns.config; Patterns.api].

(** Inclusion of flag sets: every flag set in [s1] is set in [s2]. *)
Definition flags_le (s1 s2 : Changes) : Prop :=
  (struct_fields s1 = true -> struct_fields s2 = true) /\
  (function_signatures s1 = true -> function_signatures s2 = true) /\
  (error_codes s1 = true -> error_codes s2 = true) /\
  (config_changes s1 = true -> config_changes s2 = true) /\
  (api_endpoints s1 = true -> api_endpoints s2 = true) /\
  (general_changes s1 = true -> general_changes s2 = true).

(** The path the checker looks at for a required update. *)
Definition resolve (self : DocumentationValidator) (update : pystr) : pystr :=
  os_path_join (project_root self) update.

(** [datetime.fromtimestamp(os.path.getmtime(...))] of a required update,
    when both calls return. *)
Definition last_modified_of (w : World) (self : DocumentationValidator)
  (update : pystr) : option datetime :=
  match getmtime w (resolve self update) with
  | inr t => match fromtimestamp w t with
             | inr d => Some d
             | inl _ => None
             end
  | inl _ => None
  end.

(** The required updates that are regular files: each costs the loop one
    clock reading. *)
Definition files_in (w : World) (self : DocumentationValidator)
  (l : list pystr) : list pystr :=
  filter (fun q => isfile w (resolve self q)) l.

Definition not_files_in (w : World) (self : DocumentationValidator)
  (l : list pystr) : list pystr :=
  filter (fun q => negb (isfile w (resolve self q))) l.

(** A character database that knows no character beyond ASCII. *)
Definition ascii_only : Unicode :=
  {| uni_isspace := fun _ => false;
     uni_isword := fun _ => false;
     uni_ignorecase := fun _ _ => false |}.

(** The state after one clock reading. *)
Definition tick (st : State) : State :=
  {| reads := S (reads st); stdout := stdout st |}.

(** The update of [last_updated] made for a valid file modified at [lm]. *)
Definition refresh (lm : datetime) (s : SyncStatus) : SyncStatus :=
  if match last_updated s with
     | None => true
     | Some lu => (lu <? lm)%Z
     end
  then set_last_updated (Some lm) s
  else s.

(** The dict [check_documentation_sync] starts from. *)
Definition empty_sync : SyncStatus :=
  {| status := pending; last_updated := None;
     missing_files := []; outdated_files := []; valid_files := [] |}.

(** Two worlds with the same file system: the same regular files with the
    same modification times, and the same working directory. *)
Definition same_snapshot (w1 w2 : World) : Prop :=
  (forall p, isfile w1 p = isfile w2 p) /\
  (forall p, getmtime w1 p = getmtime w2 p) /\
  (forall t, fromtimestamp w1 t = fromtimestamp w2 t) /\
  getcwd w1 = getcwd w2.

(** What one turn of the loop does. *)
Inductive turn (w : World) (self : DocumentationValidator)
  (update : pystr) (acc : SyncStatus) (st : State)
  : exc + SyncStatus -> State -> Prop :=
| TurnMissing :
    isfile w (resolve self update) = false ->
    turn w self update acc st (inr (append_missing update acc)) st
| TurnRaises msg :
    isfile w (resolve self update) = true ->
    last_modified_of w self update = None ->
    turn w self update acc st (inl (Exception msg)) st
| TurnValid lm :
    isfile w (resolve self update) = true ->
    last_modified_of w self update = Some lm ->
    (clock w (reads st) - lm < day_us)%Z ->
    turn w self update acc st
         (inr (refresh lm (append_valid update acc))) (tick st)
| TurnOutdated lm :
    isfile w (resolve self update) = true ->
    last_modified_of w self update = Some lm ->
    (day_us <= clock w (reads st) - lm)%Z ->
    turn w self update acc st (inr (append_outdated update acc)) (tick st).

(** [last_updated] is the latest modification time among the valid
    files: the invariant of the loop of [check_documentation_sync]. *)
Definition tracks_latest (w : World) (self : DocumentationValidator)
  (s : SyncStatus) : Prop :=
  (last_updated s = None -> valid_files s = []) /\
  (forall m, last_updated s = Some m ->
     exists p, In p (valid_files s) /\ last_modified_of w self p = Some m) /\
  (forall p, In p (valid_files s) ->
     exists d m, last_modified_of w self p = Some d /\
                 last_updated s = Some m /\ (d <= m)%Z).

(** The validation [main] runs for an argument vector with at least the
    two required arguments. *)
Definition validation_of {U : Unicode} (w : World) (argv : list pystr)
  : (exc + Result) * State :=
  validate_task_documentation w
    {| project_root :=
         if (3 <? List.length argv)%nat then argv_at argv 3 else getcwd w |}
    (argv_at argv 1) (argv_at argv 2) initial.

(** ** Concrete projects *)

Module Scenario.

Definition root : pystr := utf8 "/proj".
Definition api_doc : pystr := utf8 "/proj/docs/api-documentation.md".
Definition gpu_doc : pystr := utf8 "/proj/docs/gpu-api-analysis.md".

Definition t0 : timestamp := 1700000000%Z.
Definition local (t : timestamp) : datetime := (t * 1000000)%Z.

Definition mem (p : pystr) (l : list pystr) : bool :=
  if in_dec pystr_eq_dec p l then true else false.

(** A project whose regular files are [files], all modified at [mtime],
    run with the given clock; sets are enumerated in insertion order. *)
Definition project (files : list pystr) (mtime : timestamp)
  (now : nat -> datetime) : World :=
  {| set_order := fun l => l;
     isfile := fun p => mem p files;
     getmtime := fun p =>
       if mem p files then inr mtime
       else inl (utf8 "No such file or directory");
     fromtimestamp := fun t => inr (local t);
     clock := now;
     getcwd := root |}.

(** Both documents written at the very moment of the run. *)
Definition fresh_docs : World :=
  project [api_doc; gpu_doc] t0 (fun _ => local t0).

(** The same file system, one second later. *)
Definition fresh_docs_later : World :=
  project [api_doc; gpu_doc] t0 (fun _ => local (t0 + 1)%Z).

(** The same files, last written two days before the run. *)
Definition stale_docs : World :=
  project [api_doc; gpu_doc] t0 (fun _ => local (t0 + 172800)%Z).

(** The same files, with a modification time that
    [datetime.fromtimestamp] refuses. *)
Definition out_of_range : pystr := utf8 "year 60000 is out of range".

Definition unreadable_docs : World :=
  {| set_order := fun l => l;
     isfile := fun p => mem p [api_doc; gpu_doc];
     getmtime := fun _ => inr 1831000000000%Z;
     fromtimestamp := fun _ => inl out_of_range;
     clock := fun _ => local t0;
     getcwd := root |}.

Definition script : pystr := utf8 "validate_task_docs.py".

Definition argv_api : list pystr :=
  [script; utf8 "T1"; utf8 "added handler for new API endpoint"; root].

Definition argv_quiet : list pystr :=
  [script; utf8 "T3"; utf8 "refactor internal helper, no public changes";
   root].

Definition api_section : pystr :=
  utf8 "docs/api-documentation.md (엔드포인트 섹션)".
Definition gpu_analysis : pystr := utf8 "docs/gpu-api-analysis.md".

Definition validator : DocumentationValidator := {| project_root := root |}.

(** Flag sets with one and with two categories. *)
Definition api_only : Changes :=
  {| struct_fields := false; function_signatures := false;
     error_codes := false; config_changes := false;
     api_endpoints := true; general_changes := true |}.

Definition api_and_errors : Changes :=
  {| struct_fields := false; function_signatures := false;
     error_codes := true; config_changes := false;
     api_endpoints := true; general_changes := true |}.

End Scenario.

(** ** [generate_validation_report] *)

(** The status strings of the source. *)
Definition Status_str (s : Status) : pystr :=
  match s with
  | pending => utf8 "pending"
  | completed => utf8 "completed"
  | outdated => utf8 "outdated"
  | failed => utf8 "failed"
  end.

(** [sep.join(l)] *)
Fixpoint join (sep : pystr) (l : list pystr) : pystr :=
  match l with
  | [] => []
  | [x] => x
  | x :: l' => x ++ sep ++ join sep l'
  end.

Module Report.

Definition title : pystr := utf8 "# 문서 동기화 검증 보고서".
Definition generated_at : pystr := utf8 "생성 시간: ".
Definition task_heading : pystr := utf8 "## Task ".
Definition status_label : pystr := utf8 "**상태**: ".
Definition verdict_label : pystr := utf8 "**검증 통과**: ".
Definition passed_mark : pystr := utf8 "✅".
Definition failed_mark : pystr := utf8 "❌".

Definition required_heading : pystr := utf8 "### 필요한 문서 업데이트:".
Definition required_prefix : pystr := utf8 "- ".
Definition missing_heading : pystr := utf8 "### 누락된 파일:".
Definition missing_prefix : pystr := utf8 "- ❌ ".
Definition outdated_heading : pystr := utf8 "### 오래된 파일:".
Definition outdated_prefix : pystr := utf8 "- ⚠️ ".
Definition valid_heading : pystr := utf8 "### 유효한 파일:".
Definition valid_prefix : pystr := utf8 "- ✅ ".

(** The block the source writes four times:
    [if items: report.append(heading);
               for item in items: report.append(f"<prefix>{item}");
               report.append("")] *)
Definition listing (heading prefix : pystr) (items : list pystr)
  (report : list pystr) : list pystr :=
  if nonempty items then
    let report := report ++ [heading] in
    let report :=
      fold_left (fun report item => report ++ [prefix ++ item]) items
                report in
    report ++ [[]]
  else report.

(** The body of the loop over the results. *)
Definition section (result : Result) (report : list pystr) : list pystr :=
  let report := report ++ [task_heading ++ task_id result] in
  let report :=
    report ++ [status_label ++ Status_str (status (sync_status result))] in
  let report :=
    report ++ [verdict_label ++
               (if validation_passed result then passed_mark
                else failed_mark)] in
  let report := report ++ [[]] in
  let report :=
    listing required_heading required_prefix (required_updates result)
            report in
  let report :=
    listing missing_heading missing_prefix
            (missing_files (sync_status result)) report in
  let report :=
    listing outdated_heading outdated_prefix
            (outdated_files (sync_status result)) report in
  let report :=
    listing valid_heading valid_prefix
            (valid_files (sync_status result)) report in
  report.

(** The list [report] before it is joined; [generated] is the formatted
    time of the run. *)
Definition lines (generated : pystr) (results : list Result) : list pystr :=
  let report := [] in
  let report := report ++ [title] in
  let report := report ++ [generated_at ++ generated] in
  let report := report ++ [[]] in
  fold_left (fun report result => section result report) results report.

End Report.

Section ReportGenerator.
Variable w : World.
(** [datetime.strftime] with the format ['%Y-%m-%d %H:%M:%S']. *)
Variable strftime : datetime -> pystr.

Definition generate_validation_report (results : list Result) : M pystr :=
  now <- datetime_now w ;;
  ret (join [10%N] (Report.lines (strftime now) results)).

End ReportGenerator.

(** ** Further vocabulary *)

(** The validator [main] builds for an argument vector. *)
Definition validator_of (w : World) (argv : list pystr)
  : DocumentationValidator :=
  {| project_root :=
       if (3 <? List.length argv)%nat then argv_at argv 3 else getcwd w |}.

(** The text holds the keyword somewhere, compared character by character
    as [re.IGNORECASE] compares a literal. *)
Definition contains_ci {U : Unicode} (kw text : pystr) : Prop :=
  exists before found rest,
    text = before ++ found ++ rest /\
    Forall2 (fun c x => Re.lit_matches c x = true) kw found.

(** The lines a list takes in the report: none when it is empty, else a
    heading, one line per item and a blank line. *)
Definition listing_size (items : list pystr) : nat :=
  match items with
  | [] => 0
  | _ :: _ => List.length items + 2
  end.

Definition section_size (result : Result) : nat :=
  (4 + listing_size (required_updates result)
   + listing_size (missing_files (sync_status result))
   + listing_size (outdated_files (sync_status result))
   + listing_size (valid_files (sync_status result)))%nat.

(** The number of distinct paths the table holds for a flag set. *)
Definition table_size (c : Changes) : nat :=
  ((if struct_fields c then 3 else 0)
   + (if function_signatures c then 2 else 0)
   + (if error_codes c then 2 else 0)
   + (if config_changes c then 3 else 0)
   + (if api_endpoints c then 2 else 0))%nat.

(** ** More concrete projects *)

Module Samples.
Import Scenario.

(** A project that holds a file named like the labelled table entry. *)
Definition labelled_doc : pystr :=
  utf8 "/proj/docs/api-documentation.md (엔드포인트 섹션)".

Definition labelled_docs : World :=
  project [labelled_doc; gpu_doc] t0 (fun _ => local t0).

Definition argv_struct : list pystr :=
  [script; utf8 "T2"; utf8 "type User struct { Name string }"; root].

(** A formatting of the time of the run that shows the microseconds. *)
Definition show_time (d : datetime) : pystr := [Z.to_N d].

End Samples.

(** * Properties *)

(** ** The derivative search decides the patterns *)

Module ReFacts.
Import Re.

Section Facts.
Context {U : Unicode}.

Lemma matches_nil_nullable r s :
  matches r s -> s = [] -> nullable r = true.
Proof.
  induction 1; intros E; simpl; try discriminate; auto.
  - apply app_eq_nil in E. destruct E as [E1 E2].
    rewrite (IHmatches1 E1), (IHmatches2 E2). reflexivity.
  - rewrite (IHmatches E). reflexivity.
  - rewrite (IHmatches E). apply orb_true_r.
Qed.

Lemma nullable_matches_nil r : nullable r = true -> matches r [].
Proof.
  induction r; simpl; intros H; try discriminate.
  - constructor.
  - apply andb_true_iff in H. destruct H as [H1 H2].
    change (@nil N) with (@nil N ++ []). constructor; auto.
  - apply orb_true_iff in H. destruct H as [H | H].
    + apply MAltL; auto.
    + apply MAltR; auto.
  - constructor.
Qed.

Lemma matches_Void s : ~ matches Void s.
Proof. intros H. inversion H. Qed.

Lemma matches_Eps s : matches Eps s -> s = [].
Proof. intros H. inversion H. reflexivity. Qed.

Lemma matches_Seq_inv r1 r2 s :
  matches (Seq r1 r2) s ->
  exists s1 s2, s = s1 ++ s2 /\ matches r1 s1 /\ matches r2 s2.
Proof. intros H. inversion H; subst. eauto. Qed.

Lemma matches_Alt_inv r1 r2 s :
  matches (Alt r1 r2) s -> matches r1 s \/ matches r2 s.
Proof. intros H. inversion H; subst; auto. Qed.

Lemma seq_matches r1 r2 s : matches (seq r1 r2) s <-> matches (Seq r1 r2) s.
Proof.
  split.
  - intros H.
    destruct r1; simpl in H; try (exfalso; exact (matches_Void H));
      destruct r2; simpl in H; try (exfalso; exact (matches_Void H));
      try exact H; exact (MSeq MEps H).
  - intros H. apply matches_Seq_inv in H.
    destruct H as (s1 & s2 & -> & H1 & H2).
    destruct r1; try (exfalso; exact (matches_Void H1));
      destruct r2; try (exfalso; exact (matches_Void H2)); simpl;
      try (constructor; assumption);
      apply matches_Eps in H1; subst s1; exact H2.
Qed.

Lemma alt_matches r1 r2 s : matches (alt r1 r2) s <-> matches (Alt r1 r2) s.
Proof.
  split.
  - intros H.
    destruct r1; simpl in H; try (apply MAltR; exact H);
      destruct r2; simpl in H; try (apply MAltL; exact H); exact H.
  - intros H. apply matches_Alt_inv in H.
    destruct H as [H | H].
    + destruct r1; try (exfalso; exact (matches_Void H));
        destruct r2; simpl; try exact H; apply MAltL; exact H.
    + destruct r2; try (exfalso; exact (matches_Void H));
        destruct r1; simpl; try exact H; apply MAltR; exact H.
Qed.

Lemma deriv_sound x r : forall s, matches (deriv x r) s -> matches r (x :: s).
Proof.
  induction r; simpl; intros s H.
  - inversion H.
  - inversion H.
  - destruct (lit_matches c x) eqn:E; [| inversion H].
    apply matches_Eps in H. subst. constructor. exact E.
  - destruct (isspace x) eqn:E; [| inversion H].
    apply matches_Eps in H. subst. constructor. exact E.
  - destruct (isword x) eqn:E; [| inversion H].
    apply matches_Eps in H. subst. constructor. exact E.
  - assert (L : forall t, matches (seq (deriv x r1) r2) t ->
                          matches (Seq r1 r2) (x :: t)).
    { intros t Ht. apply seq_matches, matches_Seq_inv in Ht.
      destruct Ht as (s1 & s2 & -> & H1 & H2).
      change (x :: s1 ++ s2) with ((x :: s1) ++ s2). constructor; auto. }
    destruct (nullable r1) eqn:E; [| auto].
    apply alt_matches, matches_Alt_inv in H. destruct H as [H | H]; [auto |].
    change (x :: s) with ([] ++ x :: s).
    constructor; [apply nullable_matches_nil; exact E | auto].
  - apply alt_matches, matches_Alt_inv in H.
    destruct H as [H | H]; [apply MAltL | apply MAltR]; auto.
  - apply seq_matches, matches_Seq_inv in H.
    destruct H as (s1 & s2 & -> & H1 & H2).
    change (x :: s1 ++ s2) with ((x :: s1) ++ s2). constructor; auto.
Qed.

Lemma deriv_complete x r t :
  matches r t -> forall s, t = x :: s -> matches (deriv x r) s.
Proof.
  induction 1; intros u E; simpl; try discriminate.
  - injection E as -> <-. rewrite H. constructor.
  - injection E as -> <-. rewrite H. constructor.
  - injection E as -> <-. rewrite H. constructor.
  - destruct s1 as [| y s1'].
    + simpl in E. subst s2.
      rewrite (matches_nil_nullable H eq_refl).
      apply alt_matches, MAltR. auto.
    + injection E as -> <-.
      assert (L : matches (seq (deriv x r1) r2) (s1' ++ s2)).
      { apply seq_matches. constructor; auto. }
      destruct (nullable r1); [apply alt_matches, MAltL |]; exact L.
  - apply alt_matches, MAltL. auto.
  - apply alt_matches, MAltR. auto.
  - destruct s1 as [| y s1'].
    + simpl in E. apply (IHmatches2 _ E).
    + injection E as -> <-.
      apply seq_matches. constructor; auto.
Qed.

Lemma deriv_matches x r s : matches (deriv x r) s <-> matches r (x :: s).
Proof.
  split; [apply deriv_sound | intros H; exact (deriv_complete H eq_refl)].
Qed.

(** [match_here] finds exactly the texts with a matching prefix. *)
Lemma match_here_spec s : forall r,
  match_here r s = true <-> exists p q, s = p ++ q /\ matches r p.
Proof.
  induction s as [| x s IH]; intros r; simpl.
  - rewrite orb_false_r. split.
    + intros H. exists [], []. split; [reflexivity |].
      apply nullable_matches_nil; exact H.
    + intros (p & q & E & H). symmetry in E. apply app_eq_nil in E.
      destruct E as [-> _]. exact (matches_nil_nullable H eq_refl).
  - rewrite orb_true_iff, IH. split.
    + intros [H | (p & q & -> & H)].
      * exists [], (x :: s). split; [reflexivity |].
        apply nullable_matches_nil; exact H.
      * exists (x :: p), q. split; [reflexivity |].
        apply deriv_matches; exact H.
    + intros (p & q & E & H). destruct p as [| y p].
      * left. exact (matches_nil_nullable H eq_refl).
      * injection E as <- ->. right. exists p, q.
        split; [reflexivity |]. apply deriv_matches; exact H.
Qed.

(** [search] finds exactly the texts with a matching substring. *)
Theorem search_spec r s :
  search r s = true <->
  exists before found rest, s = before ++ found ++ rest /\ matches r found.
Proof.
  induction s as [| x s IH]; cbn [search].
  - rewrite orb_false_r, match_here_spec. split.
    + intros (p & q & E & H). exists [], p, q. auto.
    + intros (a & p & q & E & H). exists p, q. split; [| exact H].
      destruct a; [exact E | discriminate].
  - rewrite orb_true_iff, IH, match_here_spec. split.
    + intros [(p & q & E & H) | (a & p & q & -> & H)].
      * exists [], p, q. auto.
      * exists (x :: a), p, q. auto.
    + intros (a & p & q & E & H). destruct a as [| y a].
      * left. exists p, q. auto.
      * injection E as <- ->. right. exists a, p, q. auto.
Qed.

End Facts.
End ReFacts.

(** ** The classifier *)

Section ClassifierFacts.
Context {U : Unicode}.

Lemma struct_fields_analyze text :
  struct_fields (analyze_code_changes text) =
  Re.search Patterns.struct_decl text || Re.search Patterns.field_tag text.
Proof.
  unfold analyze_code_changes, when.
  destruct (Re.search Patterns.struct_decl text),
    (Re.search Patterns.field_tag text), (Re.search Patterns.func_decl text),
    (Re.search Patterns.error_code text), (Re.search Patterns.config text),
    (Re.search Patterns.api text); reflexivity.
Qed.

Lemma function_signatures_analyze text :
  function_signatures (analyze_code_changes text) =
  Re.search Patterns.func_decl text.
Proof.
  unfold analyze_code_changes, when.
  destruct (Re.search Patterns.struct_decl text),
    (Re.search Patterns.field_tag text), (Re.search Patterns.func_decl text),
    (Re.search Patterns.error_code text), (Re.search Patterns.config text),
    (Re.search Patterns.api text); reflexivity.
Qed.

Lemma error_codes_analyze text :
  error_codes (analyze_code_changes text) =
  Re.search Patterns.error_code text.
Proof.
  unfold analyze_code_changes, when.
  destruct (Re.search Patterns.struct_decl text),
    (Re.search Patterns.field_tag text), (Re.search Patterns.func_decl text),
    (Re.search Patterns.error_code text), (Re.search Patterns.config text),
    (Re.search Patterns.api text); reflexivity.
Qed.

Lemma config_changes_analyze text :
  config_changes (analyze_code_changes text) =
  Re.search Patterns.config text.
Proof.
  unfold analyze_code_changes, when.
  destruct (Re.search Patterns.struct_decl text),
    (Re.search Patterns.field_tag text), (Re.search Patterns.func_decl text),
    (Re.search Patterns.error_code text), (Re.search Patterns.config text),
    (Re.search Patterns.api text); reflexivity.
Qed.

Lemma api_endpoints_analyze text :
  api_endpoints (analyze_code_changes text) =
  Re.search Patterns.api text.
Proof.
  unfold analyze_code_changes, when.
  destruct (Re.search Patterns.struct_decl text),
    (Re.search Patterns.field_tag text), (Re.search Patterns.func_decl text),
    (Re.search Patterns.error_code text), (Re.search Patterns.config text),
    (Re.search Patterns.api text); reflexivity.
Qed.

Lemma general_changes_analyze text :
  let c := analyze_code_changes text in
  general_changes c =
  struct_fields c || function_signatures c || error_codes c
  || config_changes c || api_endpoints c.
Proof.
  unfold analyze_code_changes, when.
  destruct (Re.search Patterns.struct_decl text),
    (Re.search Patterns.field_tag text), (Re.search Patterns.func_decl text),
    (Re.search Patterns.error_code text), (Re.search Patterns.config text),
    (Re.search Patterns.api text); reflexivity.
Qed.

(** C6: the derived flag [general_changes] is set exactly when one of the
    five category flags is set, and a text in which none of the six
    patterns is found yields the flag set with all six flags false. *)
Theorem general_changes_iff_any_category text :
  let c := analyze_code_changes text in
  (general_changes c = true <->
   struct_fields c = true \/ function_signatures c = true \/
   error_codes c = true \/ config_changes c = true \/
   api_endpoints c = true) /\
  (Forall (fun r => Re.search r text = false) triggers -> c = no_changes).
Proof.
  split.
  - rewrite general_changes_analyze. rewrite !orb_true_iff. tauto.
  - unfold triggers. intros H.
    repeat match goal with
           | H : Forall _ (_ :: _) |- _ => inversion H; clear H; subst
           end.
    unfold analyze_code_changes, when.
    repeat match goal with
           | H : Re.search _ _ = false |- _ => rewrite H; clear H
           end.
    reflexivity.
Qed.

End ClassifierFacts.

(** A text without any trigger, classified through the theorem. *)
Lemma general_changes_iff_any_category_witness :
  analyze_code_changes (U := ascii_only)
    (utf8 "refactor internal helper, no public changes") = no_changes.
Proof.
  apply (general_changes_iff_any_category (U := ascii_only)).
  repeat constructor.
Defined.

(** ** The update mapper *)

Section MapperFacts.
Variable w : World.
Hypothesis order_ok : set_order_ok w.

Lemma In_extend_if x cond items l :
  In x (extend_if cond items l) <-> In x l \/ (cond = true /\ In x items).
Proof.
  unfold extend_if. destruct cond.
  - rewrite in_app_iff. intuition.
  - intuition discriminate.
Qed.

Lemma In_collected_updates x c :
  In x (collected_updates c) <->
  (struct_fields c = true /\ In x Table.for_struct_fields) \/
  (function_signatures c = true /\ In x Table.for_function_signatures) \/
  (error_codes c = true /\ In x Table.for_error_codes) \/
  (config_changes c = true /\ In x Table.for_config_changes) \/
  (api_endpoints c = true /\ In x Table.for_api_endpoints).
Proof.
  unfold collected_updates. rewrite !In_extend_if.
  split; intros H; [| tauto].
  destruct H as [[[[[[] | H] | H] | H] | H] | H]; tauto.
Qed.

Lemma list_set_Permutation l :
  Permutation (list_set w l) (nodup pystr_eq_dec l).
Proof. apply order_ok, NoDup_nodup. Qed.

Lemma In_list_set x l : In x (list_set w l) <-> In x l.
Proof.
  split; intros H.
  - apply (nodup_In pystr_eq_dec).
    eapply Permutation_in; [apply list_set_Permutation | exact H].
  - apply (nodup_In pystr_eq_dec) in H.
    eapply Permutation_in; [symmetry; apply list_set_Permutation | exact H].
Qed.

Lemma NoDup_list_set l : NoDup (list_set w l).
Proof.
  apply Permutation_NoDup with (l := nodup pystr_eq_dec l).
  - symmetry. apply list_set_Permutation.
  - apply NoDup_nodup.
Qed.

(** The result has set semantics: no path twice. *)
Lemma NoDup_determine_required_updates c :
  NoDup (determine_required_updates w c).
Proof. apply NoDup_list_set. Qed.

(** No active category, no required update. *)
Lemma determine_required_updates_none c :
  struct_fields c = false -> function_signatures c = false ->
  error_codes c = false -> config_changes c = false ->
  api_endpoints c = false ->
  determine_required_updates w c = [].
Proof.
  intros H1 H2 H3 H4 H5.
  assert (E : forall x, ~ In x (determine_required_updates w c)).
  { intros x Hx. unfold determine_required_updates in Hx.
    rewrite In_list_set, In_collected_updates in Hx.
    rewrite H1, H2, H3, H4, H5 in Hx. intuition discriminate. }
  destruct (determine_required_updates w c) as [| x l]; [reflexivity |].
  exfalso. apply (E x). left. reflexivity.
Qed.

(** C8: the update mapper is monotone: when every flag set in [s1] is set
    in [s2], every path required for [s1] is required for [s2]. *)
Theorem determine_required_updates_monotone s1 s2 :
  flags_le s1 s2 ->
  incl (determine_required_updates w s1) (determine_required_updates w s2).
Proof.
  intros L x Hx. unfold flags_le in L.
  destruct L as (L1 & L2 & L3 & L4 & L5 & _).
  unfold determine_required_updates in *.
  rewrite In_list_set, In_collected_updates in *.
  destruct Hx as [[F I] | [[F I] | [[F I] | [[F I] | [F I]]]]]; auto 10.
Qed.

End MapperFacts.

(** ** The sync checker *)

Lemma days_lt_1 d : (days d <? 1)%Z = true <-> (d < day_us)%Z.
Proof.
  unfold days. rewrite Z.ltb_lt.
  assert (P : (0 < day_us)%Z) by reflexivity.
  split; intros H.
  - destruct (Z_lt_ge_dec d day_us) as [L | G]; [exact L |].
    assert (1 <= d / day_us)%Z by (apply Z.div_le_lower_bound; lia). lia.
  - apply Z.div_lt_upper_bound; lia.
Qed.

Lemma for_each_app {A B} (l1 l2 : list A) (body : A -> B -> M B) :
  forall acc st,
    for_each (l1 ++ l2) body acc st =
    bind (for_each l1 body acc) (for_each l2 body) st.
Proof.
  induction l1 as [| x l1 IH]; intros acc st; simpl.
  - reflexivity.
  - unfold bind.
    destruct (body x acc st) as [[e | a] st1]; [reflexivity |].
    rewrite IH. reflexivity.
Qed.

Lemma Permutation_filter_split {A} (f : A -> bool) (l : list A) :
  Permutation (filter (fun x => negb (f x)) l ++ filter f l) l.
Proof.
  induction l as [| x l IH]; simpl; [constructor |].
  destruct (f x); simpl.
  - apply Permutation_sym, Permutation_cons_app, Permutation_sym, IH.
  - constructor. exact IH.
Qed.

Lemma NoDup_app_disjoint {A} (l1 l2 : list A) x :
  NoDup (l1 ++ l2) -> In x l1 -> In x l2 -> False.
Proof.
  induction l1 as [| y l1 IH]; simpl; intros N I1 I2; [contradiction |].
  inversion N as [| ? ? Hy N']; subst.
  destruct I1 as [-> | I1].
  - apply Hy. apply in_or_app. right. exact I2.
  - exact (IH N' I1 I2).
Qed.

Section SyncFacts.
Variable w : World.
Variable self : DocumentationValidator.

Lemma refresh_fields lm s :
  status (refresh lm s) = status s /\
  missing_files (refresh lm s) = missing_files s /\
  outdated_files (refresh lm s) = outdated_files s /\
  valid_files (refresh lm s) = valid_files s.
Proof.
  unfold refresh. destruct (last_updated s) as [lu |];
    [destruct (lu <? lm)%Z |]; auto.
Qed.

Lemma refresh_last_updated lm s :
  last_updated (refresh lm s) =
  Some (match last_updated s with
        | None => lm
        | Some lu => Z.max lu lm
        end).
Proof.
  unfold refresh. destruct (last_updated s) as [lu |] eqn:E; [| reflexivity].
  destruct (lu <? lm)%Z eqn:L; simpl.
  - apply Z.ltb_lt in L. f_equal. lia.
  - apply Z.ltb_ge in L. rewrite E. f_equal. lia.
Qed.

Lemma check_one_turn update acc st :
  let (r, st') := check_one w self update acc st in
  turn w self update acc st r st'.
Proof.
  unfold check_one. fold (resolve self update).
  destruct (isfile w (resolve self update)) eqn:F;
    [| apply TurnMissing; exact F].
  unfold bind, call, last_modified_of.
  destruct (getmtime w (resolve self update)) as [msg | t] eqn:G; simpl.
  { apply TurnRaises; [exact F |].
    unfold last_modified_of. rewrite G. reflexivity. }
  destruct (fromtimestamp w t) as [msg | lm] eqn:T; simpl.
  { apply TurnRaises; [exact F |].
    unfold last_modified_of. rewrite G, T. reflexivity. }
  assert (L : last_modified_of w self update = Some lm).
  { unfold last_modified_of. rewrite G, T. reflexivity. }
  destruct (days (clock w (reads st) - lm) <? 1)%Z eqn:D.
  - apply days_lt_1 in D.
    pose proof (@TurnValid w self update acc st lm F L D) as V.
    unfold refresh in V. unfold datetime_now, ret. simpl in V |- *.
    destruct (last_updated acc) as [lu |]; [destruct (lu <? lm)%Z |];
      exact V.
  - assert (D' : (day_us <= clock w (reads st) - lm)%Z).
    { destruct (Z_lt_ge_dec (clock w (reads st) - lm) day_us) as [L1 | G1];
        [| lia].
      apply days_lt_1 in L1. congruence. }
    exact (@TurnOutdated w self update acc st lm F L D').
Qed.

End SyncFacts.

Section LoopFacts.
Variable w : World.
Variable self : DocumentationValidator.

Lemma files_in_cons x l :
  files_in w self (x :: l) =
  if isfile w (resolve self x) then x :: files_in w self l
  else files_in w self l.
Proof. reflexivity. Qed.

Lemma not_files_in_cons x l :
  not_files_in w self (x :: l) =
  if isfile w (resolve self x) then not_files_in w self l
  else x :: not_files_in w self l.
Proof.
  unfold not_files_in. simpl.
  destruct (isfile w (resolve self x)); reflexivity.
Qed.

(** The loop, summarised: it prints nothing, raises nothing but an
    [Exception], reads the clock once per regular file, leaves [status]
    alone, sends the paths that are not regular files to [missing_files] in
    order and shares the regular files between the other two buckets. *)
Lemma loop_summary ups : forall acc st r st',
  for_each ups (check_one w self) acc st = (r, st') ->
  stdout st' = stdout st /\
  match r with
  | inl e => exists msg, e = Exception msg
  | inr s =>
      reads st' = (reads st + List.length (files_in w self ups))%nat /\
      status s = status acc /\
      missing_files s = missing_files acc ++ not_files_in w self ups /\
      exists o v,
        outdated_files s = outdated_files acc ++ o /\
        valid_files s = valid_files acc ++ v /\
        Permutation (o ++ v) (files_in w self ups)
  end.
Proof.
  induction ups as [| x ups IH]; intros acc st r st' H.
  - simpl in H. injection H as <- <-. split; [reflexivity |].
    simpl. rewrite Nat.add_0_r, !app_nil_r.
    repeat split. exists [], []. rewrite !app_nil_r. repeat split.
    constructor.
  - simpl in H. unfold bind in H.
    pose proof (check_one_turn w self x acc st) as T.
    destruct (check_one w self x acc st) as [r1 st1].
    rewrite files_in_cons, not_files_in_cons.
    inversion T as [F E1 E2 | msg F L E1 E2 | lm F L D E1 E2 | lm F L D E1 E2];
      subst r1 st1; rewrite F.
    + apply IH in H. destruct H as [Hout Hr]. split; [exact Hout |].
      destruct r as [e | s]; [exact Hr |].
      destruct Hr as (R & S & Mi & o & v & O & V & P). simpl in *.
      repeat split; try assumption.
      * rewrite Mi, <- app_assoc. reflexivity.
      * exists o, v. auto.
    + injection H as <- <-. split; [reflexivity |]. exists msg. reflexivity.
    + apply IH in H. destruct H as [Hout Hr]. split; [exact Hout |].
      destruct r as [e | s]; [exact Hr |].
      destruct Hr as (R & S & Mi & o & v & O & V & P).
      destruct (refresh_fields lm (append_valid x acc)) as (Fs & Fm & Fo & Fv).
      rewrite Fs in S. rewrite Fm in Mi. rewrite Fo in O. rewrite Fv in V.
      simpl in *.
      repeat split; try assumption.
      * rewrite R. lia.
      * exists o, (x :: v). repeat split; try assumption.
        -- rewrite V, <- app_assoc. reflexivity.
        -- apply Permutation_sym, Permutation_cons_app, Permutation_sym, P.
    + apply IH in H. destruct H as [Hout Hr]. split; [exact Hout |].
      destruct r as [e | s]; [exact Hr |].
      destruct Hr as (R & S & Mi & o & v & O & V & P). simpl in *.
      repeat split; try assumption.
      * rewrite R. lia.
      * exists (x :: o), v. repeat split; try assumption.
        -- rewrite O, <- app_assoc. reflexivity.
        -- simpl. constructor. exact P.
Qed.

(** [last_updated] never moves back during the loop. *)
Lemma loop_last_updated_grows ups : forall acc st s st' lu,
  for_each ups (check_one w self) acc st = (inr s, st') ->
  last_updated acc = Some lu ->
  exists lu', last_updated s = Some lu' /\ (lu <= lu')%Z.
Proof.
  induction ups as [| x ups IH]; intros acc st s st' lu H A.
  - simpl in H. injection H as <- <-. exists lu. split; [exact A | lia].
  - simpl in H. unfold bind in H.
    pose proof (check_one_turn w self x acc st) as T.
    destruct (check_one w self x acc st) as [r1 st1].
    inversion T as [F E1 E2 | msg F L E1 E2 | lm F L D E1 E2 | lm F L D E1 E2];
      subst r1 st1.
    + exact (IH _ _ _ _ lu H A).
    + discriminate.
    + assert (A' : last_updated (refresh lm (append_valid x acc)) =
                   Some (Z.max lu lm)).
      { rewrite refresh_last_updated. simpl. rewrite A. reflexivity. }
      destruct (IH _ _ _ _ _ H A') as (lu' & E & Le).
      exists lu'. split; [exact E | lia].
    + exact (IH _ _ _ _ lu H A).
Qed.

(** When every regular file among the required updates has a readable
    modification time, the check returns a status. *)
Lemma loop_returns ups : forall acc st,
  (forall p, In p ups -> isfile w (resolve self p) = true ->
             last_modified_of w self p <> None) ->
  exists s st', for_each ups (check_one w self) acc st = (inr s, st').
Proof.
  induction ups as [| x ups IH]; intros acc st Ok.
  - exists acc, st. reflexivity.
  - simpl. unfold bind.
    pose proof (check_one_turn w self x acc st) as T.
    destruct (check_one w self x acc st) as [r1 st1].
    assert (Ok' : forall p, In p ups -> isfile w (resolve self p) = true ->
                            last_modified_of w self p <> None).
    { intros p I. apply Ok. right. exact I. }
    inversion T as [F E1 E2 | msg F L E1 E2 | lm F L D E1 E2 | lm F L D E1 E2];
      subst r1 st1; try apply (IH _ _ Ok').
    exfalso. apply (Ok x); [left; reflexivity | exact F | exact L].
Qed.

Lemma check_documentation_sync_inr ups st s st' :
  check_documentation_sync w self ups st = (inr s, st') ->
  exists s0,
    for_each ups (check_one w self) empty_sync st = (inr s0, st') /\
    s = set_status (overall_status s0) s0.
Proof.
  unfold check_documentation_sync, bind. fold empty_sync.
  destruct (for_each ups (check_one w self) empty_sync st) as [[e | s0] st0];
    [discriminate |].
  unfold ret. intros H. injection H as <- <-. exists s0. auto.
Qed.

Lemma check_documentation_sync_returns ups st :
  (forall p, In p ups -> isfile w (resolve self p) = true ->
             last_modified_of w self p <> None) ->
  exists s st', check_documentation_sync w self ups st = (inr s, st').
Proof.
  intros Ok. unfold check_documentation_sync, bind. fold empty_sync.
  destruct (loop_returns ups empty_sync st Ok) as (s0 & st0 & E).
  rewrite E. eexists. eexists. reflexivity.
Qed.

End LoopFacts.

Section CheckerTheorems.
Variable w : World.
Variable self : DocumentationValidator.

Lemma os_path_join_relative a b :
  startswith b (utf8 "/") = false ->
  os_path_join a b = a ++ b \/ os_path_join a b = a ++ utf8 "/" ++ b.
Proof.
  intros R. unfold os_path_join. rewrite R.
  destruct a as [| c a]; [left; reflexivity |].
  destruct (endswith (c :: a) (utf8 "/")); auto.
Qed.

(** Every path of the table is relative, so it is looked up below the
    project root. *)
Lemma collected_updates_relative c p :
  In p (collected_updates c) -> startswith p (utf8 "/") = false.
Proof.
  intros H. apply In_collected_updates in H.
  destruct H as [[_ I] | [[_ I] | [[_ I] | [[_ I] | [_ I]]]]];
    simpl in I;
    repeat (destruct I as [<- | I]; [reflexivity |]); contradiction.
Qed.

Lemma overall_status_spec s :
  (missing_files s <> [] -> overall_status s = failed) /\
  (missing_files s = [] -> outdated_files s <> [] ->
   overall_status s = outdated) /\
  (missing_files s = [] -> outdated_files s = [] -> valid_files s <> [] ->
   overall_status s = completed) /\
  (missing_files s = [] -> outdated_files s = [] -> valid_files s = [] ->
   overall_status s = pending).
Proof.
  unfold overall_status.
  destruct (missing_files s), (outdated_files s), (valid_files s); simpl;
    repeat split; intros; congruence.
Qed.

(** Where the members of the buckets come from: a missing path is a
    required update that is not a regular file; a valid (outdated) path is
    a required update that is a regular file and was younger (not younger)
    than one day at the clock reading of its turn. *)
Lemma missing_files_origin ups st s st' q :
  check_documentation_sync w self ups st = (inr s, st') ->
  (In q (missing_files s) <->
   In q ups /\ isfile w (resolve self q) = false).
Proof.
  intros H. apply check_documentation_sync_inr in H.
  destruct H as (s0 & E & ->). simpl.
  apply loop_summary in E. destruct E as (_ & _ & _ & Mi & _).
  simpl in Mi. rewrite Mi. unfold not_files_in. rewrite filter_In.
  rewrite negb_true_iff. reflexivity.
Qed.

Lemma loop_origin ups : forall acc st s st',
  for_each ups (check_one w self) acc st = (inr s, st') ->
  (forall q, In q (valid_files s) ->
     In q (valid_files acc) \/
     exists pre post lm,
       ups = pre ++ q :: post /\
       isfile w (resolve self q) = true /\
       last_modified_of w self q = Some lm /\
       (clock w (reads st + List.length (files_in w self pre))%nat - lm
        < day_us)%Z) /\
  (forall q, In q (outdated_files s) ->
     In q (outdated_files acc) \/
     exists pre post lm,
       ups = pre ++ q :: post /\
       isfile w (resolve self q) = true /\
       last_modified_of w self q = Some lm /\
       (day_us <=
        clock w (reads st + List.length (files_in w self pre))%nat - lm)%Z).
Proof.
  induction ups as [| x ups IH]; intros acc st s st' H.
  - simpl in H. injection H as <- <-. split; intros q I; left; exact I.
  - simpl in H. unfold bind in H.
    pose proof (check_one_turn w self x acc st) as T.
    destruct (check_one w self x acc st) as [r1 st1].
    assert (Shift : forall (Q : nat -> datetime -> Prop) q (k : nat)
                      (a : list pystr),
               List.length (files_in w self [x]) = k ->
               (In q a \/
                exists pre post lm,
                  ups = pre ++ q :: post /\
                  isfile w (resolve self q) = true /\
                  last_modified_of w self q = Some lm /\
                  Q (reads st + k
                     + List.length (files_in w self pre))%nat lm) ->
               In q a \/
               exists pre post lm,
                 x :: ups = pre ++ q :: post /\
                 isfile w (resolve self q) = true /\
                 last_modified_of w self q = Some lm /\
                 Q (reads st + List.length (files_in w self pre))%nat lm).
    { intros Q q k a K [I | (pre & post & lm & -> & F & L & A)];
        [left; exact I |].
      right. exists (x :: pre), post, lm. repeat split; try assumption.
      replace (List.length (files_in w self (x :: pre)))
        with (k + List.length (files_in w self pre))%nat.
      - rewrite Nat.add_assoc. exact A.
      - rewrite <- K. unfold files_in. simpl.
        destruct (isfile w (resolve self x)); reflexivity. }
    inversion T as [F E1 E2 | msg F L E1 E2 | lm F L D E1 E2 | lm F L D E1 E2];
      subst r1 st1; try discriminate;
      destruct (IH _ _ _ _ H) as [V O]; clear T.
    + split; intros q I.
      * apply (Shift (fun n lm => (clock w n - lm < day_us)%Z) q 0%nat);
          [unfold files_in; simpl; rewrite F; reflexivity |].
        rewrite Nat.add_0_r. exact (V q I).
      * apply (Shift (fun n lm => (day_us <= clock w n - lm)%Z) q 0%nat);
          [unfold files_in; simpl; rewrite F; reflexivity |].
        rewrite Nat.add_0_r. exact (O q I).
    + destruct (refresh_fields lm (append_valid x acc)) as (_ & _ & Fo & Fv).
      split; intros q I.
      * destruct (V q I) as [Iq | R].
        -- rewrite Fv in Iq. simpl in Iq. apply in_app_iff in Iq.
           destruct Iq as [Iq | [<- | []]]; [left; exact Iq |].
           right. exists [], ups, lm. simpl. rewrite Nat.add_0_r. auto.
        -- apply (Shift (fun n lm => (clock w n - lm < day_us)%Z) q 1%nat);
             [unfold files_in; simpl; rewrite F; reflexivity |].
           right. simpl in R. rewrite Nat.add_1_r. exact R.
      * destruct (O q I) as [Iq | R].
        -- rewrite Fo in Iq. left. exact Iq.
        -- apply (Shift (fun n lm => (day_us <= clock w n - lm)%Z) q 1%nat);
             [unfold files_in; simpl; rewrite F; reflexivity |].
           right. simpl in R. rewrite Nat.add_1_r. exact R.
    + split; intros q I.
      * destruct (V q I) as [Iq | R].
        -- left. exact Iq.
        -- apply (Shift (fun n lm => (clock w n - lm < day_us)%Z) q 1%nat);
             [unfold files_in; simpl; rewrite F; reflexivity |].
           right. simpl in R. rewrite Nat.add_1_r. exact R.
      * destruct (O q I) as [Iq | R].
        -- simpl in Iq. apply in_app_iff in Iq.
           destruct Iq as [Iq | [<- | []]]; [left; exact Iq |].
           right. exists [], ups, lm. simpl. rewrite Nat.add_0_r. auto.
        -- apply (Shift (fun n lm => (day_us <= clock w n - lm)%Z) q 1%nat);
             [unfold files_in; simpl; rewrite F; reflexivity |].
           right. simpl in R. rewrite Nat.add_1_r. exact R.
Qed.

Lemma valid_files_origin ups st s st' q :
  check_documentation_sync w self ups st = (inr s, st') ->
  In q (valid_files s) ->
  exists pre post lm,
    ups = pre ++ q :: post /\
    isfile w (resolve self q) = true /\
    last_modified_of w self q = Some lm /\
    (clock w (reads st + List.length (files_in w self pre))%nat - lm
     < day_us)%Z.
Proof.
  intros H I. apply check_documentation_sync_inr in H.
  destruct H as (s0 & E & ->). simpl in I.
  destruct (loop_origin _ _ _ E) as [V _].
  destruct (V q I) as [[] | R]. exact R.
Qed.

Lemma outdated_files_origin ups st s st' q :
  check_documentation_sync w self ups st = (inr s, st') ->
  In q (outdated_files s) ->
  exists pre post lm,
    ups = pre ++ q :: post /\
    isfile w (resolve self q) = true /\
    last_modified_of w self q = Some lm /\
    (day_us <=
     clock w (reads st + List.length (files_in w self pre))%nat - lm)%Z.
Proof.
  intros H I. apply check_documentation_sync_inr in H.
  destruct H as (s0 & E & ->). simpl in I.
  destruct (loop_origin _ _ _ E) as [_ O].
  destruct (O q I) as [[] | R]. exact R.
Qed.

(** C1: the status returned by the sync checker follows the buckets in
    priority order: [failed] when a file is missing, else [outdated] when a
    file is outdated, else [completed] when a file is valid, else
    [pending]; with no required update all buckets are empty and the
    status is [pending]. *)
Theorem status_by_bucket_priority ups st s st' :
  check_documentation_sync w self ups st = (inr s, st') ->
  (missing_files s <> [] -> status s = failed) /\
  (missing_files s = [] -> outdated_files s <> [] -> status s = outdated) /\
  (missing_files s = [] -> outdated_files s = [] -> valid_files s <> [] ->
   status s = completed) /\
  (missing_files s = [] -> outdated_files s = [] -> valid_files s = [] ->
   status s = pending) /\
  (ups = [] ->
   missing_files s = [] /\ outdated_files s = [] /\ valid_files s = [] /\
   status s = pending).
Proof.
  intros H. apply check_documentation_sync_inr in H.
  destruct H as (s0 & E & ->). simpl.
  destruct (overall_status_spec s0) as (P1 & P2 & P3 & P4).
  split; [exact P1 |]. split; [exact P2 |]. split; [exact P3 |].
  split; [exact P4 |].
  intros ->. simpl in E. injection E as <- <-. repeat split.
Qed.

(** C3: a required path is looked up as [os.path.join(project_root, path)]
    (below the root when the path is relative); if that is not a regular
    file the path is in the missing bucket; otherwise, with [now] the
    clock reading of its turn, it is in the valid bucket when
    [now - last_modified] is less than one day, and then [last_updated]
    is at least its modification time, and in the outdated bucket
    when it is not. *)
Theorem bucket_of_each_required_path pre p post st s st' :
  check_documentation_sync w self (pre ++ p :: post) st = (inr s, st') ->
  let file_path := os_path_join (project_root self) p in
  let now :=
    clock w (reads st + List.length (files_in w self pre))%nat in
  (startswith p (utf8 "/") = false ->
   file_path = project_root self ++ p \/
   file_path = project_root self ++ utf8 "/" ++ p) /\
  (isfile w file_path = false -> In p (missing_files s)) /\
  (isfile w file_path = true ->
   exists lm,
     last_modified_of w self p = Some lm /\
     ((now - lm < day_us)%Z ->
      In p (valid_files s) /\
      exists lu, last_updated s = Some lu /\ (lm <= lu)%Z) /\
     ((day_us <= now - lm)%Z -> In p (outdated_files s))).
Proof.
  intros H file_path now. subst file_path now.
  split; [apply os_path_join_relative |].
  apply check_documentation_sync_inr in H. destruct H as (s0 & E & ->).
  simpl. fold (resolve self p).
  rewrite for_each_app in E. unfold bind in E.
  destruct (for_each pre (check_one w self) empty_sync st)
    as [[e | a1] st1] eqn:E1; [discriminate |].
  apply loop_summary in E1. destruct E1 as (_ & R1 & _).
  simpl in E. unfold bind in E.
  pose proof (check_one_turn w self p a1 st1) as T.
  destruct (check_one w self p a1 st1) as [r2 st2].
  inversion T as [F E2 E3 | msg F L E2 E3 | lm F L D E2 E3 | lm F L D E2 E3];
    subst r2 st2; try discriminate.
  - apply loop_summary in E. destruct E as (_ & _ & _ & Mi & _).
    split; [| congruence]. intros _. rewrite Mi. simpl.
    rewrite !in_app_iff. left. right. left. reflexivity.
  - pose proof E as G.
    apply loop_summary in E.
    destruct E as (_ & _ & _ & _ & o & v & _ & V & _).
    destruct (refresh_fields lm (append_valid p a1)) as (_ & _ & _ & Fv).
    rewrite Fv in V. simpl in V.
    split; [congruence |]. intros _. exists lm. split; [exact L |].
    rewrite <- R1. split; [| lia]. intros _. split.
    + rewrite V, !in_app_iff. left. right. left. reflexivity.
    + destruct (loop_last_updated_grows w self post _ _ G
                  (refresh_last_updated lm (append_valid p a1)))
        as (lu & Elu & Le).
      exists lu. split; [exact Elu |].
      simpl in Le. destruct (last_updated a1); lia.
  - apply loop_summary in E.
    destruct E as (_ & _ & _ & _ & o & v & O & _ & _). simpl in O.
    split; [congruence |]. intros _. exists lm. split; [exact L |].
    rewrite <- R1. split; [lia |]. intros _.
    rewrite O, !in_app_iff. left. right. left. reflexivity.
Qed.

(** The buckets hold the required updates, each as often as it was
    given. *)
Lemma buckets_Permutation ups st s st' :
  check_documentation_sync w self ups st = (inr s, st') ->
  Permutation (missing_files s ++ outdated_files s ++ valid_files s) ups.
Proof.
  intros H. apply check_documentation_sync_inr in H.
  destruct H as (s0 & E & ->). simpl.
  apply loop_summary in E.
  destruct E as (_ & _ & _ & Mi & o & v & O & V & P). simpl in *.
  subst. rewrite Mi.
  eapply Permutation_trans;
    [apply Permutation_app_head; exact P
    | apply (Permutation_filter_split
               (fun q => isfile w (resolve self q)) ups)].
Qed.

(** C7: for a set of required updates (a list without repetition) the
    three buckets partition it: a path is required exactly when it is in a
    bucket, no path is in two buckets or twice in one, and the sizes add
    up to the number of required updates. *)
Theorem buckets_partition_required_updates ups st s st' :
  NoDup ups ->
  check_documentation_sync w self ups st = (inr s, st') ->
  (forall p, In p ups <->
     In p (missing_files s) \/ In p (outdated_files s) \/
     In p (valid_files s)) /\
  (forall p, ~ (In p (missing_files s) /\ In p (outdated_files s))) /\
  (forall p, ~ (In p (missing_files s) /\ In p (valid_files s))) /\
  (forall p, ~ (In p (outdated_files s) /\ In p (valid_files s))) /\
  NoDup (missing_files s) /\ NoDup (outdated_files s) /\
  NoDup (valid_files s) /\
  (List.length (missing_files s) + List.length (outdated_files s)
   + List.length (valid_files s) = List.length ups)%nat.
Proof.
  intros N H. pose proof (buckets_Permutation _ _ H) as P.
  assert (N' : NoDup (missing_files s ++ outdated_files s ++ valid_files s)).
  { apply Permutation_NoDup with (l := ups); [symmetry; exact P | exact N]. }
  assert (N2 : NoDup (outdated_files s ++ valid_files s)).
  { apply NoDup_app_remove_l in N'. exact N'. }
  repeat split.
  - intros I. apply (Permutation_in _ (Permutation_sym P)) in I.
    rewrite !in_app_iff in I. exact I.
  - intros I. apply (Permutation_in _ P). rewrite !in_app_iff. exact I.
  - intros p [I1 I2]. apply (NoDup_app_disjoint _ _ p N'); [exact I1 |].
    apply in_or_app. left. exact I2.
  - intros p [I1 I2]. apply (NoDup_app_disjoint _ _ p N'); [exact I1 |].
    apply in_or_app. right. exact I2.
  - intros p [I1 I2]. exact (NoDup_app_disjoint _ _ p N2 I1 I2).
  - apply NoDup_app_remove_r in N'. exact N'.
  - apply NoDup_app_remove_r in N2. exact N2.
  - apply NoDup_app_remove_l in N2. exact N2.
  - apply Permutation_length in P. rewrite !length_app in P. lia.
Qed.

Lemma tracks_latest_empty : tracks_latest w self empty_sync.
Proof.
  unfold tracks_latest. simpl. split; [reflexivity |].
  split; [discriminate | contradiction].
Qed.

Lemma turn_tracks_latest x acc st s st' :
  turn w self x acc st (inr s) st' ->
  tracks_latest w self acc -> tracks_latest w self s.
Proof.
  intros T (I1 & I2 & I3).
  inversion T as [F E2 E3 | | lm F L D E2 E3 | lm F L D E2 E3]; subst;
    try (repeat split; simpl; assumption).
  destruct (refresh_fields lm (append_valid x acc)) as (_ & _ & _ & Fv).
  pose proof (refresh_last_updated lm (append_valid x acc)) as Fl.
  simpl in Fv, Fl.
  unfold tracks_latest. rewrite Fv, Fl. repeat split.
  - discriminate.
  - intros m Em. injection Em as <-.
    destruct (last_updated acc) as [lu |] eqn:A.
    + destruct (Z_lt_ge_dec lu lm) as [Lt | Ge].
      * exists x. rewrite in_app_iff. split; [right; left; reflexivity |].
        rewrite L. f_equal. lia.
      * destruct (I2 lu eq_refl) as (q & Iq & Lq).
        exists q. rewrite in_app_iff. split; [left; exact Iq |].
        rewrite Lq. f_equal. lia.
    + exists x. rewrite in_app_iff. split; [right; left; reflexivity |].
      exact L.
  - intros q Iq. apply in_app_iff in Iq. destruct Iq as [Iq | [<- | []]].
    + destruct (I3 q Iq) as (d & m & Lq & Em & Le). rewrite Em.
      exists d, (Z.max m lm). repeat split; [exact Lq | lia].
    + exists lm. eexists. repeat split; [exact L |].
      destruct (last_updated acc); lia.
Qed.

Lemma loop_tracks_latest ups : forall acc st s st',
  for_each ups (check_one w self) acc st = (inr s, st') ->
  tracks_latest w self acc -> tracks_latest w self s.
Proof.
  induction ups as [| x ups IH]; intros acc st s st' H I.
  - simpl in H. injection H as <- <-. exact I.
  - simpl in H. unfold bind in H.
    pose proof (check_one_turn w self x acc st) as T.
    destruct (check_one w self x acc st) as [[e | a1] st1];
      [discriminate |].
    exact (@IH _ _ _ _ H (turn_tracks_latest T I)).
Qed.

(** C10: in a returned status [last_updated] is [None] exactly when the
    valid bucket is empty, and otherwise it is the modification time of a
    valid file that no valid file exceeds. *)
Theorem last_updated_is_latest_valid ups st s st' :
  check_documentation_sync w self ups st = (inr s, st') ->
  (last_updated s = None <-> valid_files s = []) /\
  (valid_files s <> [] ->
   exists m,
     last_updated s = Some m /\
     (exists p, In p (valid_files s) /\
                last_modified_of w self p = Some m) /\
     (forall p, In p (valid_files s) ->
        exists d, last_modified_of w self p = Some d /\ (d <= m)%Z)).
Proof.
  intros H. apply check_documentation_sync_inr in H.
  destruct H as (s0 & E & ->). simpl.
  destruct (@loop_tracks_latest ups _ _ _ _ E tracks_latest_empty)
    as (I1 & I2 & I3).
  split; [split; [exact I1 |] |].
  - intros V. destruct (last_updated s0) as [m |]; [| reflexivity].
    destruct (I2 m eq_refl) as (q & Iq & _). rewrite V in Iq. contradiction.
  - intros V. destruct (last_updated s0) as [m |] eqn:A.
    + exists m. split; [reflexivity |]. split; [exact (I2 m eq_refl) |].
      intros q Iq. destruct (I3 q Iq) as (d & m' & Lq & Em & Le).
      exists d. split; [exact Lq |]. congruence.
    + exfalso. apply V. exact (I1 eq_refl).
Qed.

End CheckerTheorems.

(** ** The validation of a task and the process *)

Lemma Status_eqb_eq a b : Status_eqb a b = true <-> a = b.
Proof. destruct a, b; simpl; split; intros H; congruence. Qed.

Section RunTheorems.
Context {U : Unicode}.
Variable w : World.

Lemma check_documentation_sync_raises self ups st e st' :
  check_documentation_sync w self ups st = (inl e, st') ->
  exists msg, e = Exception msg.
Proof.
  unfold check_documentation_sync, bind.
  destruct (for_each ups (check_one w self) _ st) as [[e0 | s0] st0] eqn:E;
    [| discriminate].
  intros H. injection H as <- <-.
  apply loop_summary in E. destruct E as [_ E]. exact E.
Qed.

(** [validate_task_documentation], step by step: three lines are printed,
    the sync check runs, and when it returns a fourth line is printed, the
    clock is read and the result is assembled. *)
Lemma validate_task_documentation_steps self tid text st :
  let changes := analyze_code_changes text in
  let ups := determine_required_updates w changes in
  let st0 := {| reads := reads st;
                stdout := stdout st ++ [PrintStart tid; PrintChanges changes;
                                        PrintRequired ups] |} in
  validate_task_documentation w self tid text st =
  match check_documentation_sync w self ups st0 with
  | (inl e, st1) => (inl e, st1)
  | (inr s, st1) =>
      (inr {| task_id := tid;
              changes_detected := changes;
              required_updates := ups;
              sync_status := s;
              validation_passed := Status_eqb (status s) completed;
              timestamp_iso := clock w (reads st1) |},
       {| reads := S (reads st1);
          stdout := stdout st1 ++ [PrintSyncStatus (status s)] |})
  end.
Proof.
  unfold validate_task_documentation, bind, print, datetime_now, ret.
  simpl. rewrite <- !app_assoc. simpl.
  destruct (check_documentation_sync w self _ _) as [[e | s] st1];
    reflexivity.
Qed.

Lemma validation_passed_eqb self tid text st result st' :
  validate_task_documentation w self tid text st = (inr result, st') ->
  validation_passed result =
  Status_eqb (status (sync_status result)) completed.
Proof.
  rewrite validate_task_documentation_steps.
  destruct (check_documentation_sync w self _ _) as [[e | s] st1];
    [discriminate |].
  intros H. injection H as <- <-. reflexivity.
Qed.

(** C5: in the result of a validation, [validation_passed] is true
    exactly when the sync status is [completed]. *)
Theorem validation_passed_iff_completed self tid text st result st' :
  validate_task_documentation w self tid text st = (inr result, st') ->
  (validation_passed result = true <->
   status (sync_status result) = completed).
Proof.
  rewrite validate_task_documentation_steps.
  destruct (check_documentation_sync w self _ _) as [[e | s] st1];
    [discriminate |].
  intros H. injection H as <- <-. simpl. apply Status_eqb_eq.
Qed.

Lemma validate_task_documentation_raises self tid text st e st' :
  validate_task_documentation w self tid text st = (inl e, st') ->
  exists msg, e = Exception msg.
Proof.
  rewrite validate_task_documentation_steps.
  destruct (check_documentation_sync w self _ _) as [[e0 | s] st1] eqn:E;
    [| discriminate].
  intros H. injection H as <- <-.
  exact (@check_documentation_sync_raises _ _ _ _ _ E).
Qed.

Lemma run_usage argv :
  (List.length argv < 3)%nat -> run w argv = ([PrintUsage], 1%Z).
Proof.
  intros L. apply Nat.ltb_lt in L.
  unfold run, main. unfold bind at 1. rewrite L. reflexivity.
Qed.

Lemma run_validated argv result st :
  (3 <= List.length argv)%nat ->
  validation_of w argv = (inr result, st) ->
  run w argv =
  if validation_passed result
  then (stdout st ++ [PrintJson result; PrintPassed], 0%Z)
  else (stdout st ++ [PrintJson result; PrintFailed], 1%Z).
Proof.
  intros L V. apply Nat.ltb_ge in L. unfold validation_of in V.
  unfold run, main. unfold bind at 1. rewrite L.
  unfold ret at 1. unfold try_except, bind. rewrite V.
  unfold print, sys_exit, raise. simpl.
  destruct (validation_passed result); simpl; rewrite <- app_assoc;
    reflexivity.
Qed.

Lemma run_raised argv msg st :
  (3 <= List.length argv)%nat ->
  validation_of w argv = (inl (Exception msg), st) ->
  run w argv = (stdout st ++ [PrintError msg], 1%Z).
Proof.
  intros L V. apply Nat.ltb_ge in L. unfold validation_of in V.
  unfold run, main. unfold bind at 1. rewrite L.
  unfold ret at 1. unfold try_except, bind. rewrite V.
  reflexivity.
Qed.

(** C4: the exit code is 0 exactly when the validation ran and derived
    the status [completed]. It is 1 when fewer than two arguments are
    given (then only the usage text is printed), when the derived status
    is not [completed], and when the validation raises an error (then the
    lines printed so far are followed by the diagnostic). *)
Theorem exit_code_spec argv :
  ((List.length argv < 3)%nat -> run w argv = ([PrintUsage], 1%Z)) /\
  ((3 <= List.length argv)%nat ->
   (forall result st,
      validation_of w argv = (inr result, st) ->
      (status (sync_status result) = completed ->
       run w argv = (stdout st ++ [PrintJson result; PrintPassed], 0%Z)) /\
      (status (sync_status result) <> completed ->
       run w argv = (stdout st ++ [PrintJson result; PrintFailed], 1%Z))) /\
   (forall e st,
      validation_of w argv = (inl e, st) ->
      exists msg, e = Exception msg /\
                  run w argv = (stdout st ++ [PrintError msg], 1%Z))) /\
  (snd (run w argv) = 0%Z <->
   (3 <= List.length argv)%nat /\
   exists result st,
     validation_of w argv = (inr result, st) /\
     status (sync_status result) = completed) /\
  (snd (run w argv) <> 0%Z -> snd (run w argv) = 1%Z).
Proof.
  assert (Validated : forall result st,
             (3 <= List.length argv)%nat ->
             validation_of w argv = (inr result, st) ->
             (status (sync_status result) = completed ->
              run w argv =
              (stdout st ++ [PrintJson result; PrintPassed], 0%Z)) /\
             (status (sync_status result) <> completed ->
              run w argv =
              (stdout st ++ [PrintJson result; PrintFailed], 1%Z))).
  { intros result st L V. rewrite (@run_validated argv result st L V).
    unfold validation_of in V.
    assert (P : validation_passed result = true <->
                status (sync_status result) = completed).
    { rewrite (@validation_passed_eqb _ _ _ _ _ _ V).
      apply Status_eqb_eq. }
    destruct (validation_passed result).
    - split; [reflexivity |]. intros N. exfalso. apply N, P. reflexivity.
    - split; [| reflexivity]. intros C. apply P in C. discriminate. }
  assert (Raised : forall e st,
             (3 <= List.length argv)%nat ->
             validation_of w argv = (inl e, st) ->
             exists msg, e = Exception msg /\
                         run w argv = (stdout st ++ [PrintError msg], 1%Z)).
  { intros e st L V.
    destruct (@validate_task_documentation_raises _ _ _ _ _ _ V)
      as (msg & ->).
    exists msg. split; [reflexivity | exact (@run_raised argv msg st L V)]. }
  split; [apply run_usage |].
  split; [intros L; split; intros; auto |].
  destruct (Nat.lt_ge_cases (List.length argv) 3) as [Lt | Ge].
  { rewrite (@run_usage argv Lt). simpl. split; [| reflexivity].
    split; [discriminate | intros [Ge _]; lia]. }
  destruct (validation_of w argv) as [[e | result] st] eqn:V.
  - destruct (Raised _ _ Ge eq_refl) as (msg & -> & R). rewrite R. simpl.
    split; [| reflexivity].
    split; [discriminate | intros (_ & r & s & E & _); discriminate].
  - destruct (Validated _ _ Ge eq_refl) as [Pass Fail].
    destruct (Status_eqb (status (sync_status result)) completed) eqn:C.
    + apply Status_eqb_eq in C. rewrite (Pass C). simpl.
      split; [| intros N; exfalso; apply N; reflexivity].
      split; [| reflexivity].
      intros _. split; [exact Ge |]. exists result, st. auto.
    + assert (N : status (sync_status result) <> completed).
      { intros E. apply Status_eqb_eq in E. congruence. }
      rewrite (Fail N). simpl. split; [| reflexivity].
      split; [discriminate |].
      intros (_ & r & s & E & Cr). injection E as <- <-. contradiction.
Qed.

End RunTheorems.

(** ** Two runs on one file system *)

Lemma Permutation_filter {A} (f : A -> bool) (l l' : list A) :
  Permutation l l' -> Permutation (filter f l) (filter f l').
Proof.
  induction 1 as [| x l l' P IH | x y l | l l' l'' P1 IH1 P2 IH2]; simpl.
  - constructor.
  - destruct (f x); [constructor |]; exact IH.
  - destruct (f x), (f y); try apply Permutation_refl. constructor.
  - exact (Permutation_trans IH1 IH2).
Qed.

Lemma for_each_ext {A B} (f g : A -> B -> M B) :
  (forall x acc st, f x acc st = g x acc st) ->
  forall l acc st, for_each l f acc st = for_each l g acc st.
Proof.
  intros E l. induction l as [| x l IH]; intros acc st; simpl.
  - reflexivity.
  - unfold bind. rewrite E.
    destruct (g x acc st) as [[e | a] st1]; [reflexivity | apply IH].
Qed.

(** Without a raised error the missing bucket is the list of required
    updates that are not regular files, in order. *)
Lemma missing_files_not_files_in w self ups st s st' :
  check_documentation_sync w self ups st = (inr s, st') ->
  missing_files s = not_files_in w self ups.
Proof.
  intros H. apply check_documentation_sync_inr in H.
  destruct H as (s0 & E & ->). simpl.
  apply loop_summary in E. destruct E as (_ & _ & _ & Mi & _).
  exact Mi.
Qed.

Section Independence.
Context {U : Unicode}.
Variables w1 w2 : World.
Hypothesis snapshot : same_snapshot w1 w2.

Lemma not_files_in_snapshot self l :
  not_files_in w1 self l = not_files_in w2 self l.
Proof.
  destruct snapshot as (Hf & _). unfold not_files_in.
  apply filter_ext. intros q. rewrite Hf. reflexivity.
Qed.

Section SameClockAndOrder.
Hypothesis same_clock : forall n, clock w1 n = clock w2 n.
Hypothesis same_order : forall l, set_order w1 l = set_order w2 l.

Lemma check_one_ext self p acc st :
  check_one w1 self p acc st = check_one w2 self p acc st.
Proof.
  destruct snapshot as (Hf & Hg & Ht & _).
  unfold check_one. rewrite Hf.
  destruct (isfile w2 (os_path_join (project_root self) p));
    [| reflexivity].
  unfold bind, call. rewrite Hg.
  destruct (getmtime w2 (os_path_join (project_root self) p)) as [msg | t];
    [reflexivity |].
  simpl. rewrite Ht.
  destruct (fromtimestamp w2 t) as [msg | lm]; [reflexivity |].
  simpl. rewrite same_clock. reflexivity.
Qed.

Lemma check_documentation_sync_ext self ups st :
  check_documentation_sync w1 self ups st =
  check_documentation_sync w2 self ups st.
Proof.
  unfold check_documentation_sync, bind.
  rewrite (for_each_ext _ _ (check_one_ext self)). reflexivity.
Qed.

Lemma validation_of_ext argv : validation_of w1 argv = validation_of w2 argv.
Proof.
  destruct snapshot as (_ & _ & _ & Hc).
  unfold validation_of. rewrite Hc.
  rewrite !validate_task_documentation_steps.
  unfold determine_required_updates, list_set.
  rewrite same_order, check_documentation_sync_ext.
  destruct (check_documentation_sync w2 _ _ _) as [[e | s] st1];
    [reflexivity |].
  rewrite same_clock. reflexivity.
Qed.

Lemma run_ext argv : run w1 argv = run w2 argv.
Proof.
  destruct (Nat.lt_ge_cases (List.length argv) 3) as [Lt | Ge].
  - rewrite !(@run_usage _ _ argv Lt). reflexivity.
  - pose proof (validation_of_ext argv) as E.
    destruct (validation_of w1 argv) as [[e | result] st] eqn:V1.
    + unfold validation_of in V1.
      destruct (@validate_task_documentation_raises _ _ _ _ _ _ _ _ V1)
        as (msg & ->).
      fold (validation_of w1 argv) in V1.
      rewrite (@run_raised _ w1 argv msg st Ge V1).
      rewrite (@run_raised _ w2 argv msg st Ge (eq_sym E)). reflexivity.
    + rewrite (@run_validated _ w1 argv result st Ge V1).
      rewrite (@run_validated _ w2 argv result st Ge (eq_sym E)).
      reflexivity.
Qed.

End SameClockAndOrder.

Hypothesis order_ok1 : set_order_ok w1.
Hypothesis order_ok2 : set_order_ok w2.

Lemma validation_of_fields w argv r st :
  validation_of w argv = (inr r, st) ->
  task_id r = argv_at argv 1 /\
  changes_detected r = analyze_code_changes (argv_at argv 2) /\
  required_updates r = determine_required_updates w (changes_detected r) /\
  missing_files (sync_status r) =
  not_files_in w
    {| project_root :=
         if (3 <? List.length argv)%nat then argv_at argv 3 else getcwd w |}
    (required_updates r).
Proof.
  unfold validation_of. rewrite validate_task_documentation_steps.
  destruct (check_documentation_sync w _ _ _) as [[e | s] st1] eqn:E;
    [discriminate |].
  intros H. injection H as <- <-. simpl. repeat split.
  exact (missing_files_not_files_in _ _ _ _ E).
Qed.

(** C9, as the code has it: two runs with the same arguments on the same
    file system print the same lines and exit with the same code when
    they also read the same clock values and enumerate sets in the same
    order; whatever the clocks and orders, their results agree on the
    task id, on the detected changes, on the set of required updates and
    on the set of missing files. *)
Theorem runs_agree_up_to_clock_and_order argv :
  ((forall n, clock w1 n = clock w2 n) ->
   (forall l, set_order w1 l = set_order w2 l) ->
   run w1 argv = run w2 argv) /\
  (forall r1 st1 r2 st2,
     validation_of w1 argv = (inr r1, st1) ->
     validation_of w2 argv = (inr r2, st2) ->
     task_id r1 = task_id r2 /\
     changes_detected r1 = changes_detected r2 /\
     Permutation (required_updates r1) (required_updates r2) /\
     Permutation (missing_files (sync_status r1))
                 (missing_files (sync_status r2))).
Proof.
  split; [intros C O; exact (run_ext C O argv) |].
  intros r1 st1 r2 st2 V1 V2.
  apply validation_of_fields in V1, V2.
  destruct V1 as (T1 & C1 & R1 & M1), V2 as (T2 & C2 & R2 & M2).
  assert (P : Permutation (required_updates r1) (required_updates r2)).
  { rewrite R1, R2, C1, C2.
    eapply Permutation_trans;
      [apply (list_set_Permutation order_ok1)
      | symmetry; apply (list_set_Permutation order_ok2)]. }
  repeat split; try congruence; try exact P.
  rewrite M1, M2. destruct snapshot as (_ & _ & _ & Hc). rewrite Hc.
  rewrite not_files_in_snapshot. apply Permutation_filter. exact P.
Qed.

End Independence.

(** ** The concrete projects *)

Import Scenario.

Lemma project_order_ok files mtime now :
  set_order_ok (project files mtime now).
Proof. intros l _. apply Permutation_refl. Qed.

Lemma project_same_snapshot files mtime now now' :
  same_snapshot (project files mtime now) (project files mtime now').
Proof. repeat split. Qed.

(** C2, on the code: with both documents just written the flag
    [api_endpoints] is set and [docs/gpu-api-analysis.md] is valid, but the
    other required update is looked up under its full text, section label
    included; no such file exists, so it is missing, the status is
    [failed] and the exit code is 1. *)
Theorem fresh_api_docs_reported_failed (U : Unicode) :
  api_endpoints
    (analyze_code_changes (utf8 "added handler for new API endpoint")) = true /\
  exists result st,
    validation_of fresh_docs argv_api = (inr result, st) /\
    required_updates result = [api_section; gpu_analysis] /\
    resolve validator api_section =
    utf8 "/proj/docs/api-documentation.md (엔드포인트 섹션)" /\
    missing_files (sync_status result) = [api_section] /\
    outdated_files (sync_status result) = [] /\
    valid_files (sync_status result) = [gpu_analysis] /\
    status (sync_status result) = failed /\
    validation_passed result = false /\
    snd (run fresh_docs argv_api) = 1%Z.
Proof.
  split; [vm_compute; reflexivity |].
  eexists. eexists. split; [vm_compute; reflexivity |].
  vm_compute. repeat split.
Qed.

(** C9, as stated, fails: the same arguments on the same file system give
    another output one second later, since the result carries the time of
    the run. *)
Lemma same_snapshot_different_output :
  ~ (forall (U : Unicode) (w1 w2 : World) (argv : list pystr),
        set_order_ok w1 -> set_order_ok w2 -> same_snapshot w1 w2 ->
        run w1 argv = run w2 argv).
Proof.
  intros H.
  specialize (H ascii_only fresh_docs fresh_docs_later argv_quiet
                (project_order_ok _ _ _) (project_order_ok _ _ _)
                (project_same_snapshot _ _ _ _)).
  vm_compute in H. discriminate H.
Qed.

(** An error raised inside the validation is caught by [main]: the lines
    printed so far are followed by the diagnostic, and the exit code is 1. *)
Lemma unreadable_time_is_reported (U : Unicode) :
  run unreadable_docs argv_api =
  ([PrintStart (utf8 "T1");
    PrintChanges api_only;
    PrintRequired [api_section; gpu_analysis];
    PrintError out_of_range], 1%Z).
Proof. vm_compute. reflexivity. Qed.

(** *** Instances of the theorems *)

Lemma status_by_bucket_priority_witness :
  match check_documentation_sync fresh_docs validator [gpu_analysis] initial
  with
  | (inr s, _) => status s = completed
  | (inl _, _) => False
  end.
Proof.
  destruct (check_documentation_sync fresh_docs validator [gpu_analysis]
              initial) as [[e | s] st'] eqn:E.
  - vm_compute in E. discriminate E.
  - destruct (@status_by_bucket_priority _ _ _ _ _ _ E) as (_ & _ & C & _).
    vm_compute in E. injection E as <- <-.
    apply C; [reflexivity | reflexivity | discriminate].
Defined.

Lemma bucket_of_each_required_path_witness :
  match check_documentation_sync fresh_docs validator
          ([] ++ gpu_analysis :: [api_section]) initial
  with
  | (inr s, _) => In api_section (missing_files s)
  | (inl _, _) => False
  end.
Proof.
  destruct (check_documentation_sync fresh_docs validator
              ([] ++ gpu_analysis :: [api_section]) initial)
    as [[e | s] st'] eqn:E.
  - vm_compute in E. discriminate E.
  - change ([] ++ gpu_analysis :: [api_section])
      with ([gpu_analysis] ++ api_section :: []) in E.
    destruct (@bucket_of_each_required_path _ _ _ _ _ _ _ _ E)
      as (_ & Mi & _).
    apply Mi. vm_compute. reflexivity.
Defined.

Lemma buckets_partition_required_updates_witness :
  match check_documentation_sync fresh_docs validator
          [api_section; gpu_analysis] initial
  with
  | (inr s, _) =>
      (List.length (missing_files s) + List.length (outdated_files s)
       + List.length (valid_files s) = 2)%nat
  | (inl _, _) => False
  end.
Proof.
  destruct (check_documentation_sync fresh_docs validator
              [api_section; gpu_analysis] initial)
    as [[e | s] st'] eqn:E.
  - vm_compute in E. discriminate E.
  - assert (N : NoDup [api_section; gpu_analysis]).
    { constructor.
      - intros [I | []]. vm_compute in I. discriminate I.
      - constructor; [intros [] | constructor]. }
    destruct (@buckets_partition_required_updates _ _ _ _ _ _ N E)
      as (_ & _ & _ & _ & _ & _ & _ & L).
    exact L.
Defined.

Lemma last_updated_is_latest_valid_witness :
  match check_documentation_sync fresh_docs validator
          [api_section; gpu_analysis] initial
  with
  | (inr s, _) => last_updated s = None <-> valid_files s = []
  | (inl _, _) => False
  end.
Proof.
  destruct (check_documentation_sync fresh_docs validator
              [api_section; gpu_analysis] initial)
    as [[e | s] st'] eqn:E.
  - vm_compute in E. discriminate E.
  - destruct (@last_updated_is_latest_valid _ _ _ _ _ _ E) as (L & _).
    exact L.
Defined.

Lemma validation_passed_iff_completed_witness :
  match validation_of (U := ascii_only) fresh_docs argv_quiet with
  | (inr result, _) =>
      validation_passed result = true <->
      status (sync_status result) = completed
  | (inl _, _) => False
  end.
Proof.
  destruct (validation_of (U := ascii_only) fresh_docs argv_quiet)
    as [[e | result] st'] eqn:E.
  - vm_compute in E. discriminate E.
  - unfold validation_of in E.
    exact (@validation_passed_iff_completed ascii_only _ _ _ _ _ _ _ E).
Defined.

Lemma exit_code_spec_witness :
  run (U := ascii_only) fresh_docs [script; utf8 "T1"] = ([PrintUsage], 1%Z).
Proof.
  apply (exit_code_spec (U := ascii_only)). simpl. lia.
Defined.

Lemma determine_required_updates_monotone_witness :
  incl (determine_required_updates fresh_docs api_only)
       (determine_required_updates fresh_docs api_and_errors).
Proof.
  apply determine_required_updates_monotone.
  - apply project_order_ok.
  - unfold flags_le. simpl. repeat split; auto; discriminate.
Defined.

Lemma runs_agree_up_to_clock_and_order_witness :
  match validation_of (U := ascii_only) fresh_docs argv_api,
        validation_of (U := ascii_only) stale_docs argv_api
  with
  | (inr r1, _), (inr r2, _) =>
      Permutation (missing_files (sync_status r1))
                  (missing_files (sync_status r2))
  | _, _ => False
  end.
Proof.
  destruct (validation_of (U := ascii_only) fresh_docs argv_api)
    as [[e1 | r1] st1] eqn:E1; [vm_compute in E1; discriminate E1 |].
  destruct (validation_of (U := ascii_only) stale_docs argv_api)
    as [[e2 | r2] st2] eqn:E2; [vm_compute in E2; discriminate E2 |].
  apply (proj2 (runs_agree_up_to_clock_and_order (U := ascii_only)
                  (project_same_snapshot _ _ _ _)
                  (project_order_ok _ _ _) (project_order_ok _ _ _)
                  argv_api) r1 st1 r2 st2 E1 E2).
Defined.

(** * Further properties of the script *)

(** ** The classifier and letter case *)

Ltac nbools :=
  repeat (match goal with
          | |- context [(?a <=? ?b)%N] => destruct (N.leb_spec a b)
          | |- context [(?a <? ?b)%N] => destruct (N.ltb_spec a b)
          | |- context [(?a =? ?b)%N] => destruct (N.eqb_spec a b)
          end; simpl in *; try (exfalso; lia));
  try reflexivity.

Section CaseFacts.
Context {U : Unicode}.
Import Re.

Lemma lit_matches_lower_text c x :
  lit_matches c (ascii_lower x) = lit_matches c x.
Proof. unfold lit_matches, ascii_lower, is_upper, is_lower. nbools. Qed.

Lemma lit_matches_lower_pattern c x :
  lit_matches (ascii_lower c) x = lit_matches c x.
Proof. unfold lit_matches, ascii_lower, is_upper, is_lower. nbools. Qed.

Lemma isspace_lower x : isspace (ascii_lower x) = isspace x.
Proof. unfold isspace, ascii_lower, is_upper. nbools. Qed.

Lemma isword_lower x : isword (ascii_lower x) = isword x.
Proof.
  unfold isword, ascii_lower, is_upper, is_lower, is_digit. nbools.
Qed.

Lemma deriv_lower x r : deriv (ascii_lower x) r = deriv x r.
Proof.
  induction r; simpl;
    rewrite ?lit_matches_lower_text, ?isspace_lower, ?isword_lower,
      ?IHr1, ?IHr2, ?IHr;
    reflexivity.
Qed.

Lemma match_here_lower s : forall r,
  match_here r (map ascii_lower s) = match_here r s.
Proof.
  induction s as [| x s IH]; intros r; simpl; [reflexivity |].
  rewrite deriv_lower, IH. reflexivity.
Qed.

Lemma search_lower r s : search r (map ascii_lower s) = search r s.
Proof.
  induction s as [| x s IH]; [reflexivity |].
  change (map ascii_lower (x :: s))
    with (ascii_lower x :: map ascii_lower s).
  cbn [search]. rewrite IH.
  change (ascii_lower x :: map ascii_lower s)
    with (map ascii_lower (x :: s)).
  rewrite match_here_lower. reflexivity.
Qed.

Lemma analyze_lower text :
  analyze_code_changes (map ascii_lower text) = analyze_code_changes text.
Proof.
  unfold analyze_code_changes. rewrite !search_lower. reflexivity.
Qed.

(** X1: the classification ignores the case of ASCII letters: two texts
    that agree once their letters A..Z are lowered get the same flags. *)
Theorem analyze_ignores_ascii_case t1 t2 :
  map ascii_lower t1 = map ascii_lower t2 ->
  analyze_code_changes t1 = analyze_code_changes t2.
Proof.
  intros E. rewrite <- (analyze_lower t1), <- (analyze_lower t2), E.
  reflexivity.
Qed.

Lemma search_extend r before s rest :
  search r s = true -> search r (before ++ s ++ rest) = true.
Proof.
  rewrite !ReFacts.search_spec.
  intros (a & f & b & -> & M).
  exists (before ++ a), f, (b ++ rest). split; [| exact M].
  rewrite <- !app_assoc. reflexivity.
Qed.

(** X2: text around a change description never clears a flag: every flag
    set for a text is set for any text that contains it. *)
Theorem analyze_monotone_in_context before text rest :
  flags_le (analyze_code_changes text)
           (analyze_code_changes (before ++ text ++ rest)).
Proof.
  pose proof (general_changes_analyze text) as G1.
  pose proof (general_changes_analyze (before ++ text ++ rest)) as G2.
  simpl in G1, G2. unfold flags_le. rewrite G1, G2.
  rewrite !struct_fields_analyze, !function_signatures_analyze,
    !error_codes_analyze, !config_changes_analyze, !api_endpoints_analyze.
  rewrite !orb_true_iff.
  pose proof (fun r => @search_extend r before text rest) as E.
  repeat split; intros H;
    repeat match goal with
           | H : _ \/ _ |- _ => destruct H as [H | H]
           end; auto 10.
Qed.

Lemma matches_lit kw : forall found,
  matches (lit kw) found <->
  Forall2 (fun c x => lit_matches c x = true) kw found.
Proof.
  induction kw as [| c kw IH]; intros found; simpl.
  - split; intros H.
    + apply ReFacts.matches_Eps in H. subst. constructor.
    + inversion H. constructor.
  - split; intros H.
    + apply ReFacts.matches_Seq_inv in H.
      destruct H as (s1 & s2 & -> & H1 & H2).
      inversion H1; subst. simpl. constructor; [assumption |].
      apply IH. exact H2.
    + inversion H as [| ? x ? l' Hc Hl]; subst.
      change (x :: l') with ([x] ++ l').
      constructor; [constructor; exact Hc | apply IH; exact Hl].
Qed.

Lemma search_kw k text :
  search (Patterns.kw k) text = true <-> contains_ci (utf8 k) text.
Proof.
  unfold Patterns.kw, contains_ci. rewrite ReFacts.search_spec.
  split; intros (a & f & b & E & H); exists a, f, b; split;
    try exact E; apply matches_lit; exact H.
Qed.

Lemma search_Alt r1 r2 text :
  search (Alt r1 r2) text = search r1 text || search r2 text.
Proof.
  apply eq_true_iff_eq. rewrite orb_true_iff, !ReFacts.search_spec.
  split.
  - intros (a & f & b & E & H). apply ReFacts.matches_Alt_inv in H.
    destruct H as [H | H]; [left | right]; exists a, f, b; auto.
  - intros [(a & f & b & E & H) | (a & f & b & E & H)];
      exists a, f, b; split; try exact E;
      [apply MAltL | apply MAltR]; exact H.
Qed.

Lemma search_Void text : search Void text = false.
Proof.
  destruct (search Void text) eqn:E; [| reflexivity].
  apply ReFacts.search_spec in E. destruct E as (a & f & b & _ & H).
  inversion H.
Qed.

(** A keyword found up to case is found in any other spelling of its
    letters, and so is every part of it. *)
Lemma contains_ci_respelled k1 k2 text :
  map ascii_lower k1 = map ascii_lower k2 ->
  contains_ci k1 text -> contains_ci k2 text.
Proof.
  intros E (a & f & b & -> & H). exists a, f, b. split; [reflexivity |].
  clear a b. revert k2 E.
  induction H as [| c x k1 f Hc Hf IH]; intros k2 E.
  - destruct k2; [constructor | discriminate].
  - destruct k2 as [| c2 k2]; [discriminate |].
    simpl in E. injection E as Ec Ek. constructor; [| apply IH; exact Ek].
    rewrite <- lit_matches_lower_pattern, <- Ec, lit_matches_lower_pattern.
    exact Hc.
Qed.

Lemma contains_ci_part a k b text :
  contains_ci (a ++ k ++ b) text -> contains_ci k text.
Proof.
  intros (x & f & y & -> & H).
  apply Forall2_app_inv_l in H. destruct H as (fa & f' & Ha & H & ->).
  apply Forall2_app_inv_l in H. destruct H as (fk & fb & Hk & Hb & ->).
  exists (x ++ fa), fk, (fb ++ y). split; [| exact Hk].
  rewrite <- !app_assoc. reflexivity.
Qed.

(** X3: [api_endpoints] is set exactly when the text holds one of the
    words endpoint, route, handler, API, in any letter case. *)
Theorem api_endpoints_iff_keyword text :
  api_endpoints (analyze_code_changes text) = true <->
  contains_ci (utf8 "endpoint") text \/ contains_ci (utf8 "route") text \/
  contains_ci (utf8 "handler") text \/ contains_ci (utf8 "API") text.
Proof.
  rewrite api_endpoints_analyze. unfold Patterns.api, Patterns.alts.
  simpl fold_right. rewrite !search_Alt, search_Void, !orb_true_iff.
  rewrite !search_kw. intuition discriminate.
Qed.

(** X4: of the six alternatives of the configuration pattern four are
    redundant under [re.IGNORECASE]: [config_changes] is set exactly when
    the text holds "config" or "env" in any letter case. *)
Theorem config_changes_iff_config_or_env text :
  config_changes (analyze_code_changes text) = true <->
  contains_ci (utf8 "config") text \/ contains_ci (utf8 "env") text.
Proof.
  rewrite config_changes_analyze. unfold Patterns.config, Patterns.alts.
  simpl fold_right. rewrite !search_Alt, search_Void, !orb_true_iff.
  rewrite !search_kw.
  assert (C1 : contains_ci (utf8 "Config") text ->
               contains_ci (utf8 "config") text)
    by (apply contains_ci_respelled; reflexivity).
  assert (C2 : contains_ci (utf8 "loadConfig") text ->
               contains_ci (utf8 "config") text).
  { intros H. apply C1.
    apply (@contains_ci_part (utf8 "load") (utf8 "Config") [] text H). }
  assert (C3 : contains_ci (utf8 "NewConfig") text ->
               contains_ci (utf8 "config") text).
  { intros H. apply C1.
    apply (@contains_ci_part (utf8 "New") (utf8 "Config") [] text H). }
  assert (E1 : contains_ci (utf8 "ENV") text ->
               contains_ci (utf8 "env") text)
    by (apply contains_ci_respelled; reflexivity).
  assert (E2 : contains_ci (utf8 "environment") text ->
               contains_ci (utf8 "env") text).
  { intros H.
    apply (@contains_ci_part [] (utf8 "env") (utf8 "ironment") text H). }
  assert (E3 : contains_ci (utf8 "env") text ->
               contains_ci (utf8 "ENV") text)
    by (apply contains_ci_respelled; reflexivity).
  intuition discriminate.
Qed.

End CaseFacts.

(** ** The table of required updates *)

Section TableFacts.
Context {U : Unicode}.
Variable w : World.
Hypothesis order_ok : set_order_ok w.

Lemma nodup_collected_updates c :
  nodup pystr_eq_dec (collected_updates c) = collected_updates c.
Proof.
  destruct c as [[] [] [] [] [] g]; vm_compute; reflexivity.
Qed.

Lemma length_collected_updates c :
  List.length (collected_updates c) = table_size c.
Proof. destruct c as [[] [] [] [] [] g]; reflexivity. Qed.

(** X5: the paths of the table are pairwise distinct, so removing
    duplicates removes nothing: the number of required updates is the sum
    of the sizes of the lists of the active categories (3, 2, 2, 3, 2). *)
Theorem required_updates_count c :
  List.length (determine_required_updates w c) = table_size c.
Proof.
  unfold determine_required_updates.
  rewrite (Permutation_length (list_set_Permutation order_ok _)).
  rewrite nodup_collected_updates. apply length_collected_updates.
Qed.

Lemma determine_required_updates_nil_iff c :
  determine_required_updates w c = [] <->
  struct_fields c = false /\ function_signatures c = false /\
  error_codes c = false /\ config_changes c = false /\
  api_endpoints c = false.
Proof.
  split.
  - intros E.
    assert (L : List.length (collected_updates c) = 0%nat).
    { rewrite <- nodup_collected_updates.
      rewrite <- (Permutation_length (list_set_Permutation order_ok _)).
      fold (determine_required_updates w c). rewrite E. reflexivity. }
    rewrite length_collected_updates in L. unfold table_size in L.
    destruct (struct_fields c), (function_signatures c), (error_codes c),
      (config_changes c), (api_endpoints c); simpl in L;
      try discriminate; repeat split.
  - intros (H1 & H2 & H3 & H4 & H5).
    apply determine_required_updates_none; assumption.
Qed.

(** X6: nothing is required exactly when no category flag is set; for the
    flags of a text this is exactly when [general_changes] is false. *)
Theorem nothing_required_iff_no_change :
  (forall c,
     determine_required_updates w c = [] <->
     struct_fields c = false /\ function_signatures c = false /\
     error_codes c = false /\ config_changes c = false /\
     api_endpoints c = false) /\
  (forall text,
     determine_required_updates w (analyze_code_changes text) = [] <->
     general_changes (analyze_code_changes text) = false).
Proof.
  split; [exact determine_required_updates_nil_iff |].
  intros text. rewrite determine_required_updates_nil_iff.
  pose proof (general_changes_analyze text) as G. simpl in G. rewrite G.
  destruct (struct_fields _), (function_signatures _), (error_codes _),
    (config_changes _), (api_endpoints _); simpl; intuition discriminate.
Qed.

End TableFacts.

(** ** More on the sync checker *)

Section CheckerMore.
Variable w : World.
Variable self : DocumentationValidator.

Lemma loop_readable ups : forall acc st s st',
  for_each ups (check_one w self) acc st = (inr s, st') ->
  forall p, In p ups -> isfile w (resolve self p) = true ->
            last_modified_of w self p <> None.
Proof.
  induction ups as [| x ups IH]; intros acc st s st' H p I F.
  - contradiction.
  - simpl in H. unfold bind in H.
    pose proof (check_one_turn w self x acc st) as T.
    destruct (check_one w self x acc st) as [r1 st1].
    inversion T as [F1 E1 E2 | msg F1 L E1 E2 | lm F1 L D E1 E2
                   | lm F1 L D E1 E2];
      subst r1 st1; try discriminate;
      (destruct I as [<- | I]; [| exact (IH _ _ _ _ H p I F)]);
      congruence.
Qed.

(** X7: the sync check returns a status exactly when every required
    update that is a regular file has a modification time that can be read
    and converted; otherwise it raises. *)
Theorem check_returns_iff_readable ups st :
  (exists s st', check_documentation_sync w self ups st = (inr s, st')) <->
  (forall p, In p ups -> isfile w (resolve self p) = true ->
             last_modified_of w self p <> None).
Proof.
  split.
  - intros (s & st' & H). apply check_documentation_sync_inr in H.
    destruct H as (s0 & E & _). exact (loop_readable _ _ _ E).
  - apply check_documentation_sync_returns.
Qed.

Lemma check_documentation_sync_effects ups st :
  let (r, st') := check_documentation_sync w self ups st in
  stdout st' = stdout st /\
  match r with
  | inr _ =>
      reads st' = (reads st + List.length (files_in w self ups))%nat
  | inl e => exists msg, e = Exception msg
  end.
Proof.
  unfold check_documentation_sync, bind. fold empty_sync.
  destruct (for_each ups (check_one w self) empty_sync st)
    as [[e | s0] st0] eqn:E;
    apply loop_summary in E; destruct E as [Out R].
  - split; assumption.
  - simpl. split; [exact Out |]. destruct R as (R & _). exact R.
Qed.

(** X8: the sync check prints nothing; when it returns it has read the
    clock once per required update that is a regular file, and when it
    fails it raises an [Exception], never [SystemExit]. *)
Theorem check_effects ups st :
  let (r, st') := check_documentation_sync w self ups st in
  stdout st' = stdout st /\
  match r with
  | inr _ =>
      reads st' = (reads st + List.length (files_in w self ups))%nat
  | inl e => exists msg, e = Exception msg
  end.
Proof. apply check_documentation_sync_effects. Qed.

(** X9: the missing bucket lists the required updates that are not
    regular files, in the order and as often as they were given. *)
Theorem missing_files_in_order ups st s st' :
  check_documentation_sync w self ups st = (inr s, st') ->
  missing_files s =
  filter (fun p => negb (isfile w (os_path_join (project_root self) p))) ups.
Proof. apply missing_files_not_files_in. Qed.

(** X10: also for a list with repeated paths the buckets together hold
    every required update as often as it was given, so their sizes add up
    to the length of the list. *)
Theorem buckets_keep_repetitions ups st s st' :
  check_documentation_sync w self ups st = (inr s, st') ->
  Permutation (missing_files s ++ outdated_files s ++ valid_files s) ups /\
  (List.length (missing_files s) + List.length (outdated_files s)
   + List.length (valid_files s) = List.length ups)%nat.
Proof.
  intros H. pose proof (buckets_Permutation _ _ _ _ H) as P.
  split; [exact P |].
  apply Permutation_length in P. rewrite !length_app in P. lia.
Qed.

Lemma overall_status_failed s :
  overall_status s = failed <-> missing_files s <> [].
Proof.
  unfold overall_status.
  destruct (missing_files s), (outdated_files s), (valid_files s); simpl;
    split; intros H; congruence.
Qed.

Lemma overall_status_completed s :
  overall_status s = completed <->
  missing_files s = [] /\ outdated_files s = [] /\ valid_files s <> [].
Proof.
  unfold overall_status.
  destruct (missing_files s), (outdated_files s), (valid_files s); simpl;
    split; intros H; try congruence; try (repeat split; congruence);
    destruct H as (H1 & H2 & H3); congruence.
Qed.

(** X11: the status is [failed] exactly when some required update is not
    a regular file, whatever the age of the others. *)
Theorem failed_iff_some_missing ups st s st' :
  check_documentation_sync w self ups st = (inr s, st') ->
  (status s = failed <->
   exists p, In p ups /\ isfile w (resolve self p) = false).
Proof.
  intros H. pose proof (missing_files_not_files_in _ _ _ _ H) as Mi.
  apply check_documentation_sync_inr in H. destruct H as (s0 & E & ->).
  simpl in *. rewrite overall_status_failed, Mi. unfold not_files_in.
  split.
  - intros N.
    destruct (filter _ ups) as [| p l] eqn:Fl; [contradiction |].
    assert (I : In p (filter
                (fun q => negb (isfile w (resolve self q))) ups))
      by (rewrite Fl; left; reflexivity).
    apply filter_In in I. destruct I as [I F].
    exists p. split; [exact I |]. apply negb_true_iff. exact F.
  - intros (p & I & F) Em.
    assert (Ip : In p (filter
                 (fun q => negb (isfile w (resolve self q))) ups)).
    { apply filter_In. split; [exact I |]. rewrite F. reflexivity. }
    rewrite Em in Ip. contradiction.
Qed.

(** X12: when the clock stays between [lo] and [hi] during the check,
    the status is [completed] if something is required and every required
    update is a regular file modified less than a day before [hi];
    and a [completed] status guarantees that something is required and
    every required update is a regular file modified less than a day
    before [lo]. *)
Theorem completed_iff_all_fresh ups st s st' lo hi :
  (forall n, (lo <= clock w n <= hi)%Z) ->
  check_documentation_sync w self ups st = (inr s, st') ->
  (ups <> [] /\
   (forall p, In p ups ->
      isfile w (resolve self p) = true /\
      exists lm, last_modified_of w self p = Some lm /\
                 (hi - lm < day_us)%Z) ->
   status s = completed) /\
  (status s = completed ->
   ups <> [] /\
   forall p, In p ups ->
     isfile w (resolve self p) = true /\
     exists lm, last_modified_of w self p = Some lm /\
                (lo - lm < day_us)%Z).
Proof.
  intros Clock H.
  pose proof (missing_files_not_files_in _ _ _ _ H) as Mi.
  pose proof (buckets_Permutation _ _ _ _ H) as P.
  pose proof (fun q => @outdated_files_origin w self ups st s st' q H) as O.
  pose proof (fun q => @valid_files_origin w self ups st s st' q H) as V.
  apply check_documentation_sync_inr in H. destruct H as (s0 & E & ->).
  simpl in *. rewrite overall_status_completed. split.
  - intros (Ne & All).
    assert (M0 : missing_files s0 = []).
    { rewrite Mi. unfold not_files_in.
      destruct (filter _ ups) as [| p l] eqn:Fl; [reflexivity |].
      assert (I : In p (filter
                  (fun q => negb (isfile w (resolve self q))) ups))
        by (rewrite Fl; left; reflexivity).
      apply filter_In in I. destruct I as [I F].
      destruct (All p I) as [Fp _]. rewrite Fp in F. discriminate. }
    assert (O0 : outdated_files s0 = []).
    { destruct (outdated_files s0) as [| q l] eqn:Eo; [reflexivity |].
      destruct (O q (or_introl eq_refl))
        as (pre & post & lm & Eu & _ & L & Age).
      assert (I : In q ups) by (rewrite Eu; apply in_elt).
      destruct (All q I) as (_ & lm' & L' & Age').
      rewrite L in L'. injection L' as <-.
      pose proof (Clock (reads st + List.length (files_in w self pre))%nat).
      lia. }
    repeat split; try assumption.
    intros Ev. rewrite M0, O0, Ev in P. simpl in P.
    apply Permutation_nil in P. contradiction.
  - intros (M0 & O0 & Vn). split.
    + intros ->. rewrite M0, O0 in P. simpl in P.
      apply Permutation_sym, Permutation_nil in P. contradiction.
    + intros p I.
      apply (Permutation_in _ (Permutation_sym P)) in I.
      rewrite M0, O0 in I. simpl in I.
      destruct (V p I) as (pre & post & lm & _ & F & L & Age).
      split; [exact F |]. exists lm. split; [exact L |].
      pose proof (Clock (reads st + List.length (files_in w self pre))%nat).
      lia.
Qed.

End CheckerMore.

(** ** The whole run *)

Lemma startswith_app s t p :
  startswith s p = true -> startswith (s ++ t) p = true.
Proof.
  revert s. induction p as [| a p IH]; intros s H;
    [destruct (s ++ t); reflexivity |].
  destruct s as [| b s]; [discriminate |].
  simpl in *. apply andb_true_iff in H. destruct H as [E H].
  rewrite E, (IH _ H). reflexivity.
Qed.

Lemma endswith_app x s p :
  endswith s p = true -> endswith (x ++ s) p = true.
Proof.
  unfold endswith. rewrite rev_app_distr. apply startswith_app.
Qed.

Lemma endswith_os_path_join a b p :
  endswith b p = true -> endswith (os_path_join a b) p = true.
Proof.
  intros H. unfold os_path_join.
  destruct (startswith b (utf8 "/")); [exact H |].
  destruct (match a with [] => true | _ :: _ => endswith a (utf8 "/") end).
  - apply endswith_app. exact H.
  - rewrite app_assoc. apply endswith_app. exact H.
Qed.

Section RunMore.
Context {U : Unicode}.
Variable w : World.
Hypothesis order_ok : set_order_ok w.

Lemma validation_of_inr argv r st :
  validation_of w argv = (inr r, st) ->
  changes_detected r = analyze_code_changes (argv_at argv 2) /\
  required_updates r = determine_required_updates w (changes_detected r) /\
  validation_passed r = Status_eqb (status (sync_status r)) completed /\
  exists st0 st1,
    check_documentation_sync w (validator_of w argv) (required_updates r) st0
    = (inr (sync_status r), st1).
Proof.
  unfold validation_of. rewrite validate_task_documentation_steps.
  fold (validator_of w argv).
  destruct (check_documentation_sync w _ _ _) as [[e | s] st1] eqn:E;
    [discriminate |].
  intros H. injection H as <- <-. simpl. repeat split.
  eexists. eexists. exact E.
Qed.

Lemma run_cases argv :
  ((List.length argv < 3)%nat /\ run w argv = ([PrintUsage], 1%Z)) \/
  ((3 <= List.length argv)%nat /\
   exists msg st,
     validation_of w argv = (inl (Exception msg), st) /\
     run w argv = (stdout st ++ [PrintError msg], 1%Z)) \/
  ((3 <= List.length argv)%nat /\
   exists r st,
     validation_of w argv = (inr r, st) /\
     run w argv =
     if validation_passed r
     then (stdout st ++ [PrintJson r; PrintPassed], 0%Z)
     else (stdout st ++ [PrintJson r; PrintFailed], 1%Z)).
Proof.
  destruct (Nat.lt_ge_cases (List.length argv) 3) as [Lt | Ge].
  - left. split; [exact Lt | apply run_usage; exact Lt].
  - right. destruct (validation_of w argv) as [[e | r] st] eqn:V.
    + left. split; [exact Ge |].
      pose proof V as V'. unfold validation_of in V'.
      destruct (@validate_task_documentation_raises _ _ _ _ _ _ _ _ V')
        as (msg & ->).
      exists msg, st. split; [reflexivity |].
      apply run_raised; assumption.
    + right. split; [exact Ge |]. exists r, st.
      split; [reflexivity |]. apply run_validated; assumption.
Qed.

(** X13: a detected struct change can never pass: its first required
    update is the directory path [docs/schemas/], and a path that ends
    with a slash is never a regular file; so the exit code is 1. *)
Theorem schema_change_never_passes argv :
  (forall p, endswith p (utf8 "/") = true -> isfile w p = false) ->
  (3 <= List.length argv)%nat ->
  struct_fields (analyze_code_changes (argv_at argv 2)) = true ->
  snd (run w argv) = 1%Z.
Proof.
  intros Slash Ge S.
  destruct (run_cases argv)
    as [[_ R] | [(_ & msg & st & _ & R) | (_ & r & st & V & R)]];
    rewrite R; try reflexivity.
  destruct (validation_of_inr _ V) as (C & Ru & Vp & st0 & st1 & K).
  assert (I : In (utf8 "docs/schemas/") (required_updates r)).
  { rewrite Ru, C. unfold determine_required_updates.
    apply (In_list_set order_ok). apply In_collected_updates.
    left. split; [exact S | left; reflexivity]. }
  assert (F : isfile w (resolve (validator_of w argv) (utf8 "docs/schemas/"))
              = false).
  { apply Slash. apply endswith_os_path_join. reflexivity. }
  assert (Mi : In (utf8 "docs/schemas/") (missing_files (sync_status r))).
  { apply (missing_files_origin _ _ _ _ _ K). split; assumption. }
  apply check_documentation_sync_inr in K. destruct K as (s0 & _ & Es).
  rewrite Vp, Es. simpl. rewrite Es in Mi. simpl in Mi.
  assert (Fa : overall_status s0 = failed).
  { apply overall_status_failed. intros E. rewrite E in Mi. contradiction. }
  rewrite Fa. reflexivity.
Qed.

(** X14: in every result the required updates are pairwise distinct and
    the three buckets of its sync status hold exactly them. *)
Theorem result_buckets_partition argv r st :
  validation_of w argv = (inr r, st) ->
  NoDup (required_updates r) /\
  Permutation (missing_files (sync_status r)
               ++ outdated_files (sync_status r)
               ++ valid_files (sync_status r))
              (required_updates r).
Proof.
  intros V.
  destruct (validation_of_inr _ V) as (C & Ru & Vp & st0 & st1 & K).
  split.
  - rewrite Ru. apply NoDup_determine_required_updates. exact order_ok.
  - exact (buckets_Permutation _ _ _ _ K).
Qed.

(** X15: a text in which no change is detected never passes: nothing is
    required, all buckets stay empty, the status is [pending], the
    timestamp is the first clock reading and the exit code is 1. *)
Theorem no_change_never_passes argv :
  (3 <= List.length argv)%nat ->
  general_changes (analyze_code_changes (argv_at argv 2)) = false ->
  exists r st,
    validation_of w argv = (inr r, st) /\
    required_updates r = [] /\
    sync_status r = set_status pending empty_sync /\
    validation_passed r = false /\
    timestamp_iso r = clock w 0 /\
    snd (run w argv) = 1%Z.
Proof.
  intros Ge G.
  assert (N : determine_required_updates w
                (analyze_code_changes (argv_at argv 2)) = []).
  { apply (determine_required_updates_nil_iff order_ok).
    pose proof (general_changes_analyze (argv_at argv 2)) as A.
    simpl in A. rewrite A in G.
    destruct (struct_fields _), (function_signatures _), (error_codes _),
      (config_changes _), (api_endpoints _); simpl in G;
      try discriminate; repeat split. }
  assert (V : exists r st,
             validation_of w argv = (inr r, st) /\
             required_updates r = [] /\
             sync_status r = set_status pending empty_sync /\
             validation_passed r = false /\
             timestamp_iso r = clock w 0).
  { unfold validation_of. rewrite validate_task_documentation_steps.
    rewrite N. simpl. eexists. eexists. split; [reflexivity |].
    simpl. repeat split. }
  destruct V as (r & st & V & H1 & H2 & H3 & H4).
  exists r, st. repeat split; try assumption.
  rewrite (@run_validated _ w argv r st Ge V), H3. reflexivity.
Qed.

(** X16: the last line printed tells the exit code: the process exits
    with 0 exactly when its last line is the pass line. *)
Theorem exit_zero_iff_pass_line argv :
  snd (run w argv) = 0%Z <->
  last (fst (run w argv)) PrintUsage = PrintPassed.
Proof.
  destruct (run_cases argv)
    as [[_ R] | [(_ & msg & st & _ & R) | (_ & r & st & _ & R)]];
    rewrite R.
  - simpl. split; discriminate.
  - simpl. rewrite last_last. split; discriminate.
  - destruct (validation_passed r); simpl;
      change [PrintJson r; PrintPassed]
        with ([PrintJson r] ++ [PrintPassed]);
      change [PrintJson r; PrintFailed]
        with ([PrintJson r] ++ [PrintFailed]);
      rewrite app_assoc, last_last; split; intros H;
      try reflexivity; discriminate.
Qed.

Lemma run_zero_inv argv :
  snd (run w argv) = 0%Z ->
  exists r st,
    validation_of w argv = (inr r, st) /\
    general_changes (changes_detected r) = true /\
    required_updates r <> [] /\
    forall p, In p (required_updates r) ->
      isfile w (resolve (validator_of w argv) p) = true /\
      last_modified_of w (validator_of w argv) p <> None.
Proof.
  destruct (run_cases argv)
    as [[_ R] | [(_ & msg & st & _ & R) | (_ & r & st & V & R)]];
    rewrite R; try discriminate.
  destruct (validation_passed r) eqn:Vp; [| discriminate].
  intros _. exists r, st. split; [exact V |].
  destruct (validation_of_inr _ V) as (C & Ru & Vq & st0 & st1 & K).
  rewrite Vp in Vq. symmetry in Vq. apply Status_eqb_eq in Vq.
  pose proof (missing_files_not_files_in _ _ _ _ K) as Mi.
  pose proof (buckets_Permutation _ _ _ _ K) as P.
  pose proof (check_documentation_sync_inr _ _ _ _ K) as (s0 & E & Es).
  rewrite Es in Vq. simpl in Vq. apply overall_status_completed in Vq.
  destruct Vq as (M0 & O0 & Vn).
  rewrite Es in Mi, P. simpl in Mi, P.
  assert (Ne : required_updates r <> []).
  { intros En. rewrite En, M0, O0 in P. simpl in P.
    apply Permutation_sym, Permutation_nil in P. contradiction. }
  split; [| split; [exact Ne |]].
  - destruct (general_changes (changes_detected r)) eqn:G; [reflexivity |].
    exfalso. apply Ne. rewrite Ru.
    rewrite C in G |- *.
    apply (determine_required_updates_nil_iff order_ok).
    pose proof (general_changes_analyze (argv_at argv 2)) as A.
    simpl in A. rewrite A in G.
    destruct (struct_fields _), (function_signatures _), (error_codes _),
      (config_changes _), (api_endpoints _); simpl in G;
      try discriminate; repeat split.
  - intros p I.
    assert (F : isfile w (resolve (validator_of w argv) p) = true).
    { destruct (isfile w (resolve (validator_of w argv) p)) eqn:F;
        [reflexivity |].
      assert (Ip : In p (not_files_in w (validator_of w argv)
                           (required_updates r))).
      { apply filter_In. split; [exact I |]. rewrite F. reflexivity. }
      rewrite <- Mi, M0 in Ip. contradiction. }
    split; [exact F |].
    exact (@loop_readable _ _ _ _ _ _ _ E p I F).
Qed.

(** X17: what exit code 0 guarantees: a change was detected, something
    was required, and every required update, looked up below the project
    root, is a regular file with a readable modification time. *)
Theorem exit_zero_guarantees argv :
  snd (run w argv) = 0%Z ->
  exists r st,
    validation_of w argv = (inr r, st) /\
    general_changes (changes_detected r) = true /\
    required_updates r <> [] /\
    forall p, In p (required_updates r) ->
      isfile w (resolve (validator_of w argv) p) = true /\
      last_modified_of w (validator_of w argv) p <> None.
Proof. apply run_zero_inv. Qed.

Lemma run_exit_code argv : snd (run w argv) = 0%Z \/ snd (run w argv) = 1%Z.
Proof.
  destruct (run_cases argv)
    as [[_ R] | [(_ & msg & st & _ & R) | (_ & r & st & _ & R)]];
    rewrite R; auto.
  destruct (validation_passed r); auto.
Qed.

(** X21: every category of the table has an entry that carries a section
    label in parentheses, and the checker looks that entry up as a file
    name; so on a project where no regular file has a path ending with a
    closing parenthesis the exit code is 1 for every argument vector. *)
Theorem never_passes_without_labelled_files argv :
  (forall p, endswith p (utf8 ")") = true -> isfile w p = false) ->
  snd (run w argv) = 1%Z.
Proof.
  intros Lbl. destruct (run_exit_code argv) as [Z0 | Z1]; [| exact Z1].
  exfalso.
  destruct (run_zero_inv argv Z0) as (r & st & V & G & _ & Files).
  destruct (validation_of_inr _ V) as (C & Ru & _).
  assert (Miss : forall q, In q (required_updates r) ->
                           endswith q (utf8 ")") = true -> False).
  { intros q I E. destruct (Files q I) as [F _].
    pose proof (Lbl _ (endswith_os_path_join
                         (project_root (validator_of w argv)) _ _ E)) as F'.
    unfold resolve in F. congruence. }
  assert (Req : forall q, In q (collected_updates (changes_detected r)) ->
                          In q (required_updates r)).
  { intros q I. rewrite Ru. apply (In_list_set order_ok). exact I. }
  rewrite C in G.
  pose proof (general_changes_analyze (argv_at argv 2)) as A.
  simpl in A. rewrite A, <- C in G. rewrite !orb_true_iff in G.
  destruct G as [[[[S | S] | S] | S] | S].
  - apply (Miss (utf8 "README.md (설정 섹션)")); [| reflexivity].
    apply Req, In_collected_updates. left. split; [exact S |].
    right. left. reflexivity.
  - apply (Miss (utf8 "README.md (API 섹션)")); [| reflexivity].
    apply Req, In_collected_updates. right. left. split; [exact S |].
    right. left. reflexivity.
  - apply (Miss (utf8 "docs/api-documentation.md (에러 섹션)"));
      [| reflexivity].
    apply Req, In_collected_updates. right. right. left.
    split; [exact S |]. left. reflexivity.
  - apply (Miss (utf8 "README.md (환경변수 섹션)")); [| reflexivity].
    apply Req, In_collected_updates. right. right. right. left.
    split; [exact S |]. left. reflexivity.
  - apply (Miss (utf8 "docs/api-documentation.md (엔드포인트 섹션)"));
      [| reflexivity].
    apply Req, In_collected_updates. right. right. right. right.
    split; [exact S |]. left. reflexivity.
Qed.

(** X22: what a run prints: the usage line alone; or the three progress
    lines (start, detected changes, required updates) followed by the
    diagnostic of the error; or those three, the status line, the result
    and the pass or the fail line, with exit code 0 for the pass line and
    1 otherwise. The result echoes the task id and carries the changes and
    the required updates that were printed. *)
Theorem run_output_shape argv :
  let changes := analyze_code_changes (argv_at argv 2) in
  let ups := determine_required_updates w changes in
  let progress :=
    [PrintStart (argv_at argv 1); PrintChanges changes; PrintRequired ups] in
  run w argv = ([PrintUsage], 1%Z) \/
  (exists msg, run w argv = (progress ++ [PrintError msg], 1%Z)) \/
  (exists r,
     task_id r = argv_at argv 1 /\ changes_detected r = changes /\
     required_updates r = ups /\
     run w argv =
     (progress ++ [PrintSyncStatus (status (sync_status r)); PrintJson r;
                   if validation_passed r then PrintPassed else PrintFailed],
      if validation_passed r then 0%Z else 1%Z)).
Proof.
  intros changes ups progress.
  destruct (run_cases argv)
    as [[_ R] | [(_ & msg & st & V & R) | (_ & r & st & V & R)]].
  - left. exact R.
  - right. left. exists msg. rewrite R. f_equal. f_equal.
    unfold validation_of in V.
    rewrite validate_task_documentation_steps in V.
    pose proof (check_documentation_sync_effects w
                  (validator_of w argv)
                  (determine_required_updates w
                     (analyze_code_changes (argv_at argv 2)))
                  {| reads := reads initial;
                     stdout := stdout initial ++
                       [PrintStart (argv_at argv 1);
                        PrintChanges (analyze_code_changes (argv_at argv 2));
                        PrintRequired
                          (determine_required_updates w
                             (analyze_code_changes (argv_at argv 2)))] |})
      as Eff.
    unfold validator_of in Eff.
    destruct (check_documentation_sync w _ _ _) as [[e | s] st1];
      [| discriminate].
    injection V as _ <-. destruct Eff as [Out _]. exact Out.
  - right. right. exists r.
    unfold validation_of in V.
    rewrite validate_task_documentation_steps in V.
    pose proof (check_documentation_sync_effects w
                  (validator_of w argv)
                  (determine_required_updates w
                     (analyze_code_changes (argv_at argv 2)))
                  {| reads := reads initial;
                     stdout := stdout initial ++
                       [PrintStart (argv_at argv 1);
                        PrintChanges (analyze_code_changes (argv_at argv 2));
                        PrintRequired
                          (determine_required_updates w
                             (analyze_code_changes (argv_at argv 2)))] |})
      as Eff.
    unfold validator_of in Eff.
    destruct (check_documentation_sync w _ _ _) as [[e | s] st1];
      [discriminate |].
    injection V as <- <-. destruct Eff as [Out _]. simpl in *.
    repeat split. rewrite R.
    destruct (Status_eqb (status s) completed); rewrite Out;
      rewrite <- app_assoc; reflexivity.
Qed.


End RunMore.

(** ** The report *)

Section ReportFacts.
Import Report.

Lemma fold_left_append (f : pystr -> pystr) items : forall report,
  fold_left (fun report item => report ++ [f item]) items report =
  report ++ map f items.
Proof.
  induction items as [| i items IH]; intros report; simpl.
  - rewrite app_nil_r. reflexivity.
  - rewrite IH, <- app_assoc. reflexivity.
Qed.

Lemma listing_nil heading prefix items :
  listing heading prefix items [] =
  match items with
  | [] => []
  | _ :: _ => heading :: map (app prefix) items ++ [[]]
  end.
Proof.
  unfold listing. destruct items as [| i items]; [reflexivity |].
  cbn [nonempty]. rewrite (fold_left_append (app prefix)). reflexivity.
Qed.

Lemma listing_app heading prefix items report :
  listing heading prefix items report =
  report ++ listing heading prefix items [].
Proof.
  unfold listing. destruct items as [| i items]; cbn [nonempty].
  - rewrite app_nil_r. reflexivity.
  - rewrite !(fold_left_append (app prefix)), <- !app_assoc. reflexivity.
Qed.

Lemma section_app result report :
  section result report = report ++ section result [].
Proof.
  unfold section.
  rewrite (listing_app valid_heading), (listing_app outdated_heading),
    (listing_app missing_heading), (listing_app required_heading).
  symmetry.
  rewrite (listing_app valid_heading), (listing_app outdated_heading),
    (listing_app missing_heading), (listing_app required_heading).
  rewrite <- !app_assoc. reflexivity.
Qed.

Lemma fold_left_section results : forall report,
  fold_left (fun report result => section result report) results report =
  report ++ flat_map (fun result => section result []) results.
Proof.
  induction results as [| r results IH]; intros report; simpl.
  - rewrite app_nil_r. reflexivity.
  - rewrite IH, (section_app r report), <- app_assoc. reflexivity.
Qed.

Lemma lines_flat_map generated results :
  lines generated results =
  [title; generated_at ++ generated; []]
  ++ flat_map (fun result => section result []) results.
Proof. unfold lines. rewrite fold_left_section. reflexivity. Qed.

(** X18: the report follows the order of the results and each section
    depends on its own result only: the lines for a batch followed by
    another are the lines for the first batch followed by the sections of
    the second. *)
Theorem report_of_appended_batches generated rs1 rs2 :
  lines generated (rs1 ++ rs2) =
  lines generated rs1 ++ flat_map (fun result => section result []) rs2.
Proof.
  rewrite !lines_flat_map, flat_map_app, <- app_assoc. reflexivity.
Qed.

Lemma length_listing heading prefix items :
  List.length (listing heading prefix items []) = listing_size items.
Proof.
  rewrite listing_nil. destruct items as [| i items]; [reflexivity |].
  unfold listing_size. remember (i :: items) as l.
  cbn [List.length]. rewrite length_app, length_map. cbn [List.length].
  unfold pystr in *. lia.
Qed.

Lemma length_section result :
  List.length (section result []) = section_size result.
Proof.
  unfold section.
  rewrite (listing_app valid_heading), (listing_app outdated_heading),
    (listing_app missing_heading), (listing_app required_heading).
  rewrite !length_app, !length_listing. unfold section_size. simpl.
  unfold pystr in *. lia.
Qed.

Lemma length_lines generated results :
  List.length (lines generated results) =
  (3 + list_sum (map section_size results))%nat.
Proof.
  rewrite lines_flat_map, length_app. simpl. f_equal. f_equal. f_equal.
  induction results as [| r results IH]; simpl; [reflexivity |].
  rewrite length_app, length_section, IH. reflexivity.
Qed.

(** X19: [generate_validation_report] reads the clock once, prints
    nothing and returns the lines joined by newlines; there are three
    header lines and, for each result, four lines plus, for each of its
    four lists that is not empty, a heading, one line per path and a blank
    line. *)
Theorem generate_validation_report_size w strftime results st :
  exists report,
    generate_validation_report w strftime results st =
    (inr (join [10%N] report), tick st) /\
    report = lines (strftime (clock w (reads st))) results /\
    List.length report = (3 + list_sum (map section_size results))%nat.
Proof.
  eexists. split; [reflexivity |]. split; [reflexivity |].
  apply length_lines.
Qed.

Lemma In_listing x heading prefix items :
  In x (listing heading prefix items []) <->
  items <> [] /\
  (x = heading \/ x = [] \/ exists i, In i items /\ x = prefix ++ i).
Proof.
  rewrite listing_nil. destruct items as [| i0 items].
  - split; [contradiction | intros [N _]; congruence].
  - remember (i0 :: items) as l. cbn [In].
    rewrite in_app_iff, in_map_iff. cbn [In]. split.
    + intros [<- | [(i & <- & I) | [<- | []]]];
        (split; [subst l; discriminate |]); eauto.
    + intros (_ & [-> | [-> | (i & I & ->)]]); eauto 6.
Qed.

Lemma In_section x result :
  In x (section result []) <->
  x = task_heading ++ task_id result \/
  x = status_label ++ Status_str (status (sync_status result)) \/
  x = verdict_label ++
      (if validation_passed result then passed_mark else failed_mark) \/
  x = [] \/
  In x (listing required_heading required_prefix
                (required_updates result) []) \/
  In x (listing missing_heading missing_prefix
                (missing_files (sync_status result)) []) \/
  In x (listing outdated_heading outdated_prefix
                (outdated_files (sync_status result)) []) \/
  In x (listing valid_heading valid_prefix
                (valid_files (sync_status result)) []).
Proof.
  unfold section.
  rewrite (listing_app valid_heading), (listing_app outdated_heading),
    (listing_app missing_heading), (listing_app required_heading).
  rewrite !in_app_iff. cbn [In app].
  split; intros H; repeat (destruct H as [H | H]); subst; auto 10;
    contradiction.
Qed.

Lemma In_lines x generated results :
  In x (lines generated results) <->
  x = title \/ x = generated_at ++ generated \/ x = [] \/
  exists result, In result results /\ In x (section result []).
Proof.
  rewrite lines_flat_map, in_app_iff, in_flat_map. cbn [In].
  split; intros H; repeat (destruct H as [H | H]); subst; auto 10;
    contradiction.
Qed.

Ltac differ H := exfalso; cbv in H; discriminate H.

Lemma heading_in_listing heading heading' prefix items :
  heading <> [] ->
  (forall i, heading <> prefix ++ i) ->
  (In heading (listing heading' prefix items []) <->
   heading = heading' /\ items <> []).
Proof.
  intros Ne Np. rewrite In_listing. split.
  - intros (N & [E | [E | (i & _ & E)]]); [auto | congruence |].
    exfalso. exact (Np i E).
  - intros (E & N). auto.
Qed.

(** X20: a list of a result is rendered only if it is not empty: the
    heading of the missing, of the outdated and of the valid files is
    among the lines of the report exactly when some result has a path in
    that bucket. *)
Theorem bucket_heading_iff_nonempty generated results :
  (In missing_heading (lines generated results) <->
   exists result, In result results /\
                  missing_files (sync_status result) <> []) /\
  (In outdated_heading (lines generated results) <->
   exists result, In result results /\
                  outdated_files (sync_status result) <> []) /\
  (In valid_heading (lines generated results) <->
   exists result, In result results /\
                  valid_files (sync_status result) <> []).
Proof.
  repeat split.
  all: try (intros H; apply In_lines in H;
            destruct H as [H | [H | [H | (r & Ir & H)]]];
            try (differ H);
            exists r; split; [exact Ir |];
            apply In_section in H;
            destruct H as [H | [H | [H | [H | [H | [H | [H | H]]]]]]];
            try (differ H);
            apply heading_in_listing in H;
            try discriminate;
            try (intros i Hi; differ Hi);
            destruct H as [H N]; try (differ H); exact N).
  all: intros (r & Ir & N); apply In_lines;
    right; right; right; exists r; split; [exact Ir |];
    apply In_section; do 4 right.
  - right. left. apply In_listing. auto.
  - right. right. left. apply In_listing. auto.
  - right. right. right. apply In_listing. auto.
Qed.

End ReportFacts.

(** *** Instances of the further properties *)

Import Samples.

Lemma project_no_file_ends_with_slash now p :
  endswith p (utf8 "/") = true ->
  isfile (project [api_doc; gpu_doc] t0 now) p = false.
Proof.
  intros E. simpl. unfold mem.
  destruct (in_dec pystr_eq_dec p [api_doc; gpu_doc]) as [I | _];
    [| reflexivity].
  destruct I as [<- | [<- | []]]; vm_compute in E; discriminate E.
Qed.

Lemma analyze_ignores_ascii_case_witness :
  analyze_code_changes (U := ascii_only) (utf8 "New API Handler") =
  analyze_code_changes (U := ascii_only) (utf8 "new api handler").
Proof.
  apply (analyze_ignores_ascii_case (U := ascii_only)). reflexivity.
Defined.

Lemma required_updates_count_witness :
  List.length (determine_required_updates fresh_docs api_and_errors) = 4%nat.
Proof.
  apply (required_updates_count (project_order_ok _ _ _) api_and_errors).
Defined.

Lemma nothing_required_iff_no_change_witness :
  determine_required_updates fresh_docs no_changes = [].
Proof.
  apply (proj1 (nothing_required_iff_no_change (U := ascii_only)
                  (project_order_ok _ _ _))).
  repeat split.
Defined.

Lemma missing_files_in_order_witness :
  match check_documentation_sync fresh_docs validator
          [api_section; gpu_analysis; api_section] initial
  with
  | (inr s, _) => missing_files s = [api_section; api_section]
  | (inl _, _) => False
  end.
Proof.
  destruct (check_documentation_sync fresh_docs validator
              [api_section; gpu_analysis; api_section] initial)
    as [[e | s] st'] eqn:E.
  - vm_compute in E. discriminate E.
  - rewrite (@missing_files_in_order _ _ _ _ _ _ E). vm_compute.
    reflexivity.
Defined.

Lemma buckets_keep_repetitions_witness :
  match check_documentation_sync fresh_docs validator
          [gpu_analysis; gpu_analysis] initial
  with
  | (inr s, _) =>
      (List.length (missing_files s) + List.length (outdated_files s)
       + List.length (valid_files s) = 2)%nat
  | (inl _, _) => False
  end.
Proof.
  destruct (check_documentation_sync fresh_docs validator
              [gpu_analysis; gpu_analysis] initial)
    as [[e | s] st'] eqn:E.
  - vm_compute in E. discriminate E.
  - exact (proj2 (@buckets_keep_repetitions _ _ _ _ _ _ E)).
Defined.

Lemma failed_iff_some_missing_witness :
  match check_documentation_sync fresh_docs validator
          [gpu_analysis; api_section] initial
  with
  | (inr s, _) => status s = failed
  | (inl _, _) => False
  end.
Proof.
  destruct (check_documentation_sync fresh_docs validator
              [gpu_analysis; api_section] initial)
    as [[e | s] st'] eqn:E.
  - vm_compute in E. discriminate E.
  - apply (@failed_iff_some_missing _ _ _ _ _ _ E).
    exists api_section. split; [right; left; reflexivity |].
    vm_compute. reflexivity.
Defined.

Lemma completed_iff_all_fresh_witness :
  match check_documentation_sync fresh_docs validator [gpu_analysis] initial
  with
  | (inr s, _) => status s = completed
  | (inl _, _) => False
  end.
Proof.
  destruct (check_documentation_sync fresh_docs validator [gpu_analysis]
              initial) as [[e | s] st'] eqn:E.
  - vm_compute in E. discriminate E.
  - assert (Clock : forall n, (local t0 <= clock fresh_docs n <= local t0)%Z)
      by (intros n; simpl; lia).
    apply (proj1 (@completed_iff_all_fresh _ _ _ _ _ _ _ _ Clock E)).
    split; [discriminate |].
    intros p [<- | []]. split; [vm_compute; reflexivity |].
    exists (local t0). split; vm_compute; reflexivity.
Defined.

Lemma schema_change_never_passes_witness :
  snd (run (U := ascii_only) fresh_docs argv_struct) = 1%Z.
Proof.
  apply (schema_change_never_passes (U := ascii_only)
           (project_order_ok _ _ _)).
  - apply project_no_file_ends_with_slash.
  - simpl. lia.
  - vm_compute. reflexivity.
Defined.

Lemma result_buckets_partition_witness :
  match validation_of (U := ascii_only) fresh_docs argv_api with
  | (inr r, _) => NoDup (required_updates r)
  | (inl _, _) => False
  end.
Proof.
  destruct (validation_of (U := ascii_only) fresh_docs argv_api)
    as [[e | r] st] eqn:E.
  - vm_compute in E. discriminate E.
  - exact (proj1 (@result_buckets_partition ascii_only _
                    (project_order_ok _ _ _) _ _ _ E)).
Defined.

Lemma no_change_never_passes_witness :
  exists r st,
    validation_of (U := ascii_only) fresh_docs argv_quiet = (inr r, st) /\
    required_updates r = [] /\
    sync_status r = set_status pending empty_sync /\
    validation_passed r = false /\
    timestamp_iso r = clock fresh_docs 0 /\
    snd (run (U := ascii_only) fresh_docs argv_quiet) = 1%Z.
Proof.
  apply (no_change_never_passes (U := ascii_only) (project_order_ok _ _ _)).
  - simpl. lia.
  - vm_compute. reflexivity.
Defined.

Lemma exit_zero_guarantees_witness :
  exists r st,
    validation_of (U := ascii_only) labelled_docs argv_api = (inr r, st) /\
    general_changes (changes_detected r) = true /\
    required_updates r <> [] /\
    forall p, In p (required_updates r) ->
      isfile labelled_docs (resolve (validator_of labelled_docs argv_api) p)
      = true /\
      last_modified_of labelled_docs (validator_of labelled_docs argv_api) p
      <> None.
Proof.
  apply (exit_zero_guarantees (U := ascii_only) (project_order_ok _ _ _)).
  vm_compute. reflexivity.
Defined.

Lemma never_passes_without_labelled_files_witness :
  snd (run (U := ascii_only) fresh_docs argv_api) = 1%Z.
Proof.
  apply (never_passes_without_labelled_files (U := ascii_only)
           (project_order_ok _ _ _)).
  intros p E. simpl. unfold mem.
  destruct (in_dec pystr_eq_dec p [api_doc; gpu_doc]) as [I | _];
    [| reflexivity].
  destruct I as [<- | [<- | []]]; vm_compute in E; discriminate E.
Defined.
